(** * nd-prover: syntax, unification, proof search and post-processing

    A shallow embedding of [nd_prover/syntax.py], [nd_prover/cli.py] and
    [nd_prover/prover.py], with the properties of the specification that
    concern them. *)

From Stdlib Require Import ZArith QArith Lia Bool Ascii String List.
From stdpp Require Import base tactics option list gmap strings.

Close Scope Q_scope.
Set Default Proof Using "Type".
Local Open Scope string_scope.
Local Open Scope list_scope.

(** ** Exceptions and results

    Python functions either return or raise; [result] keeps the two apart. *)

Inductive exn : Type :=
  | ParsingError (msg : string)
  | ProverError (msg : string)
  | TimeoutError
  | RecursionError
  | AttributeError
  | KeyError
  | IndexError
  | ValueError.

Inductive result (A : Type) : Type :=
  | Ok (a : A)
  | Raise (e : exn).
Arguments Ok {A} a.
Arguments Raise {A} e.

(** ** Syntax ([syntax.py]) *)

Module Syntax.

(** The classes of [syntax.py]. Python does not enforce the field
    annotations ([inner: Formula], [args: tuple[Term]], [var: Var]), and a
    [Metavar] may stand in any position of a rule schema, so terms, formulas
    and metavariables share one type, as they share one universe of objects
    in the source. A [Metavar] object is mutable: the constructor here is the
    reference to it (its [id]), its [domain] and [value] live in the store of
    module [Unify]. *)
#[warnings="-register-all"]
Inductive obj : Type :=
  | Bot
  | Not (inner : obj)
  | And (l r : obj)
  | Or (l r : obj)
  | Imp (l r : obj)
  | Iff (l r : obj)
  | Func (name : string) (args : list obj)
  | Var (name : string)
  | Pred (name : string) (args : list obj)
  | Eq (l r : obj)
  | Forall (var inner : obj)
  | Exists (var inner : obj)
  | Box (inner : obj)
  | Dia (inner : obj)
  | BoxMarker
  | Metavar (id : nat).

(** Induction with the hypothesis available for every argument of [Func]
    and [Pred]. *)
Section obj_induction.
Variable P : obj -> Prop.
Hypothesis HBot : P Bot.
Hypothesis HNot : forall a, P a -> P (Not a).
Hypothesis HAnd : forall a b, P a -> P b -> P (And a b).
Hypothesis HOr : forall a b, P a -> P b -> P (Or a b).
Hypothesis HImp : forall a b, P a -> P b -> P (Imp a b).
Hypothesis HIff : forall a b, P a -> P b -> P (Iff a b).
Hypothesis HFunc : forall s args, List.Forall P args -> P (Func s args).
Hypothesis HVar : forall s, P (Var s).
Hypothesis HPred : forall s args, List.Forall P args -> P (Pred s args).
Hypothesis HEq : forall a b, P a -> P b -> P (Eq a b).
Hypothesis HForall : forall v a, P v -> P a -> P (Forall v a).
Hypothesis HExists : forall v a, P v -> P a -> P (Exists v a).
Hypothesis HBox : forall a, P a -> P (Box a).
Hypothesis HDia : forall a, P a -> P (Dia a).
Hypothesis HBoxMarker : P BoxMarker.
Hypothesis HMetavar : forall i, P (Metavar i).

Fixpoint obj_ind' (o : obj) : P o :=
    match o with
    | Bot => HBot
    | Not a => HNot a (obj_ind' a)
    | And a b => HAnd a b (obj_ind' a) (obj_ind' b)
    | Or a b => HOr a b (obj_ind' a) (obj_ind' b)
    | Imp a b => HImp a b (obj_ind' a) (obj_ind' b)
    | Iff a b => HIff a b (obj_ind' a) (obj_ind' b)
    | Func s args =>
        HFunc s args
          ((fix go (l : list obj) : List.Forall P l :=
              match l with
              | [] => @List.Forall_nil obj P
              | x :: l' => @List.Forall_cons obj P x l' (obj_ind' x) (go l')
              end) args)
    | Var s => HVar s
    | Pred s args =>
        HPred s args
          ((fix go (l : list obj) : List.Forall P l :=
              match l with
              | [] => @List.Forall_nil obj P
              | x :: l' => @List.Forall_cons obj P x l' (obj_ind' x) (go l')
              end) args)
    | Eq a b => HEq a b (obj_ind' a) (obj_ind' b)
    | Forall v a => HForall v a (obj_ind' v) (obj_ind' a)
    | Exists v a => HExists v a (obj_ind' v) (obj_ind' a)
    | Box a => HBox a (obj_ind' a)
    | Dia a => HDia a (obj_ind' a)
    | BoxMarker => HBoxMarker
    | Metavar i => HMetavar i
    end.
End obj_induction.

(** The [==] that [@dataclass(frozen=True)] generates: same class and equal
    fields. It is a pure comparison on objects without metavariables; the
    [==] of a [Metavar] is the method [Metavar.__eq__], modelled in module
    [Unify]. Here a metavariable is compared by identity. *)
Fixpoint obj_eqb (a b : obj) {struct a} : bool :=
  let fix args_eqb (xs ys : list obj) {struct xs} : bool :=
    match xs, ys with
    | [], [] => true
    | x :: xs', y :: ys' => obj_eqb x y && args_eqb xs' ys'
    | _, _ => false
    end in
  match a, b with
  | Bot, Bot => true
  | Not a1, Not b1 => obj_eqb a1 b1
  | And a1 a2, And b1 b2 => obj_eqb a1 b1 && obj_eqb a2 b2
  | Or a1 a2, Or b1 b2 => obj_eqb a1 b1 && obj_eqb a2 b2
  | Imp a1 a2, Imp b1 b2 => obj_eqb a1 b1 && obj_eqb a2 b2
  | Iff a1 a2, Iff b1 b2 => obj_eqb a1 b1 && obj_eqb a2 b2
  | Func s xs, Func t ys => String.eqb s t && args_eqb xs ys
  | Var s, Var t => String.eqb s t
  | Pred s xs, Pred t ys => String.eqb s t && args_eqb xs ys
  | Eq a1 a2, Eq b1 b2 => obj_eqb a1 b1 && obj_eqb a2 b2
  | Forall a1 a2, Forall b1 b2 => obj_eqb a1 b1 && obj_eqb a2 b2
  | Exists a1 a2, Exists b1 b2 => obj_eqb a1 b1 && obj_eqb a2 b2
  | Box a1, Box b1 => obj_eqb a1 b1
  | Dia a1, Dia b1 => obj_eqb a1 b1
  | BoxMarker, BoxMarker => true
  | Metavar i, Metavar j => Nat.eqb i j
  | _, _ => false
  end.

Definition args_eqb : list obj -> list obj -> bool :=
  fix args_eqb (xs ys : list obj) {struct xs} : bool :=
    match xs, ys with
    | [], [] => true
    | x :: xs', y :: ys' => obj_eqb x y && args_eqb xs' ys'
    | _, _ => false
    end.

(** [x in container], for a container of metavariable-free objects. *)
Definition obj_in (x : obj) (xs : list obj) : bool := existsb (obj_eqb x) xs.

(** *** Well-formedness per logic *)

Fixpoint is_tfl_formula (formula : obj) : bool :=
  match formula with
  | Pred _ args => match args with [] => true | _ => false end
  | Bot => true
  | Not a => is_tfl_formula a
  | And a b | Or a b | Imp a b | Iff a b => is_tfl_formula a && is_tfl_formula b
  | _ => false
  end.

Fixpoint is_fol_formula (formula : obj) : bool :=
  match formula with
  | Bot | Pred _ _ | Eq _ _ => true
  | Not a | Forall _ a | Exists _ a => is_fol_formula a
  | And a b | Or a b | Imp a b | Iff a b => is_fol_formula a && is_fol_formula b
  | _ => false
  end.

Fixpoint is_ml_formula (formula : obj) : bool :=
  match formula with
  | Pred _ args => match args with [] => true | _ => false end
  | Bot => true
  | Not a | Box a | Dia a => is_ml_formula a
  | And a b | Or a b | Imp a b | Iff a b => is_ml_formula a && is_ml_formula b
  | _ => false
  end.

(** *** Atomic terms, constants, free variables

    The Python functions return [set]s; a set is a list here, read up to
    membership: union is concatenation, difference is a filter. *)

Fixpoint atomic_terms (formula : obj) (free : bool) : list obj :=
  match formula with
  | Bot => []
  | Not a | Box a | Dia a => atomic_terms a free
  | And a b | Or a b | Imp a b | Iff a b | Eq a b =>
      atomic_terms a free ++ atomic_terms b free
  | Func _ args =>
      match args with
      | [] => [formula]
      | _ => flat_map (fun t => atomic_terms t free) args
      end
  | Var _ => [formula]
  | Pred _ args => flat_map (fun t => atomic_terms t free) args
  | Forall v a | Exists v a =>
      if free then List.filter (fun t => negb (obj_eqb t v)) (atomic_terms a free)
      else atomic_terms a free
  | _ => []
  end.

Definition is_Func (t : obj) : bool := match t with Func _ _ => true | _ => false end.
Definition is_Var (t : obj) : bool := match t with Var _ => true | _ => false end.

Definition constants (formula : obj) : list obj :=
  List.filter is_Func (atomic_terms formula false).

Definition free_vars (formula : obj) : list obj :=
  List.filter is_Var (atomic_terms formula true).

(** [not s] for a set [s]. *)
Definition set_is_empty {A} (s : list A) : bool :=
  match s with [] => true | _ => false end.

Definition is_fol_sentence (formula : obj) : bool :=
  is_fol_formula formula && set_is_empty (free_vars formula).


(** *** Substitution of a term

    [gen] is a Python callable, called afresh for every replaced occurrence:
    it is a step function on a generator state [G], and [sub_term] threads
    that state in the order in which Python evaluates the calls (left to
    right). [ignore] is the predicate on bound variables; its default in the
    source is [lambda v: False]. *)
Section sub_term.
Context {G : Type}.
Variable term : obj.
Variable gen : G -> obj * G.
Variable ignore : obj -> bool.

Fixpoint sub_term (formula : obj) (g : G) {struct formula} : obj * G :=
    let sub_args :=
      fix sub_args (ts : list obj) (g : G) {struct ts} : list obj * G :=
        match ts with
        | [] => ([], g)
        | t :: ts' =>
            let '(t', g1) := sub_term t g in
            let '(ts'', g2) := sub_args ts' g1 in
            (t' :: ts'', g2)
        end in
    match formula with
    | Bot => (formula, g)
    | Not a => let '(a', g1) := sub_term a g in (Not a', g1)
    | Box a => let '(a', g1) := sub_term a g in (Box a', g1)
    | Dia a => let '(a', g1) := sub_term a g in (Dia a', g1)
    | And a b =>
        let '(a', g1) := sub_term a g in
        let '(b', g2) := sub_term b g1 in (And a' b', g2)
    | Or a b =>
        let '(a', g1) := sub_term a g in
        let '(b', g2) := sub_term b g1 in (Or a' b', g2)
    | Imp a b =>
        let '(a', g1) := sub_term a g in
        let '(b', g2) := sub_term b g1 in (Imp a' b', g2)
    | Iff a b =>
        let '(a', g1) := sub_term a g in
        let '(b', g2) := sub_term b g1 in (Iff a' b', g2)
    | Eq a b =>
        let '(a', g1) := sub_term a g in
        let '(b', g2) := sub_term b g1 in (Eq a' b', g2)
    | Func s args =>
        if obj_eqb formula term then gen g
        else let '(args', g1) := sub_args args g in (Func s args', g1)
    | Var _ => if obj_eqb formula term then gen g else (formula, g)
    | Pred s args => let '(args', g1) := sub_args args g in (Pred s args', g1)
    | Forall v a =>
        if negb (obj_eqb v term || ignore v)
        then let '(a', g1) := sub_term a g in (Forall v a', g1)
        else (Forall v a, g)
    | Exists v a =>
        if negb (obj_eqb v term || ignore v)
        then let '(a', g1) := sub_term a g in (Exists v a', g1)
        else (Exists v a, g)
    | _ => (formula, g)
    end.

  (** [tuple(sub_term(t, term, gen, ignore) for t in args)] *)
Fixpoint sub_args (ts : list obj) (g : G) {struct ts} : list obj * G :=
    match ts with
    | [] => ([], g)
    | t :: ts' =>
        let '(t', g1) := sub_term t g in
        let '(ts'', g2) := sub_args ts' g1 in
        (t' :: ts'', g2)
    end.
End sub_term.


(** *** What the specification says of [sub_term]

    [Subst term ignore f vs f'] reads: [f'] is [f] with every free
    occurrence of [term] replaced, from left to right, by the values [vs],
    one value for each occurrence; an occurrence below a quantifier that
    binds [term] is bound and stays, and the body of a quantifier whose
    variable satisfies [ignore] stays as it is. *)
Section sub_spec.
Variable term : obj.
Variable ignore : obj -> bool.

Inductive Subst : obj -> list obj -> obj -> Prop :=
  | Subst_occurrence f v :
      is_Func f || is_Var f = true -> f = term -> Subst f [v] v
  | Subst_Var n : Var n <> term -> Subst (Var n) [] (Var n)
  | Subst_Func s args vs args' :
      Func s args <> term -> SubstArgs args vs args' ->
      Subst (Func s args) vs (Func s args')
  | Subst_Pred s args vs args' :
      SubstArgs args vs args' -> Subst (Pred s args) vs (Pred s args')
  | Subst_unary c a vs a' :
      In c [Not; Box; Dia] -> Subst a vs a' -> Subst (c a) vs (c a')
  | Subst_binary c a b vs1 vs2 a' b' :
      In c [And; Or; Imp; Iff; Eq] ->
      Subst a vs1 a' -> Subst b vs2 b' -> Subst (c a b) (vs1 ++ vs2) (c a' b')
  | Subst_bound q v a :
      In q [Forall; Exists] -> v = term -> Subst (q v a) [] (q v a)
  | Subst_ignored q v a :
      In q [Forall; Exists] -> ignore v = true -> Subst (q v a) [] (q v a)
  | Subst_quantifier q v a vs a' :
      In q [Forall; Exists] -> v <> term -> ignore v = false ->
      Subst a vs a' -> Subst (q v a) vs (q v a')
  | Subst_leaf f : In f [Bot; BoxMarker] -> Subst f [] f
  | Subst_Metavar i : Subst (Metavar i) [] (Metavar i)
with SubstArgs : list obj -> list obj -> list obj -> Prop :=
  | SubstArgs_nil : SubstArgs [] [] []
  | SubstArgs_cons t ts vs1 vs2 t' ts' :
      Subst t vs1 t' -> SubstArgs ts vs2 ts' ->
      SubstArgs (t :: ts) (vs1 ++ vs2) (t' :: ts').

(** The number of occurrences that are replaced. *)
Fixpoint occurrences (f : obj) : nat :=
  match f with
  | Not a | Box a | Dia a => occurrences a
  | And a b | Or a b | Imp a b | Iff a b | Eq a b => occurrences a + occurrences b
  | Func _ args =>
      if obj_eqb f term then 1
      else fold_right (fun t n => occurrences t + n) 0 args
  | Var _ => if obj_eqb f term then 1 else 0
  | Pred _ args => fold_right (fun t n => occurrences t + n) 0 args
  | Forall v a | Exists v a =>
      if obj_eqb v term || ignore v then 0 else occurrences a
  | _ => 0
  end.
End sub_spec.

(** [n] successive calls of [gen()]: the values, in order, and the state of
    the generator after them. *)
Fixpoint gen_run {G : Type} (gen : G -> obj * G) (n : nat) (g : G) : list obj * G :=
  match n with
  | O => ([], g)
  | S n' =>
      let '(v, g1) := gen g in
      let '(vs, g2) := gen_run gen n' g1 in
      (v :: vs, g2)
  end.


End Syntax.

(** ** Metavariables and unification ([syntax.py], classes [Metavar] and
    [Formula]) *)

Module Unify.
Import Syntax.

(** A [Metavar] object. [domain] is the container given to the constructor
    ([None] by default), [value] the binding. The objects live in a store
    indexed by their [id]; [Metavar.count] hands out the ids. *)
Record metavar : Type := { domain : option (list obj); value : option obj }.

Abbreviation store := (gmap nat metavar).

Definition set_value (m : metavar) (v : option obj) : metavar :=
  {| domain := domain m; value := v |}.

(** [self.domain and other not in self.domain]: an empty container is falsy,
    like [None]. Membership compares with the members, which carry no
    metavariables. *)
Definition domain_rejects (m : metavar) (other : obj) : bool :=
  match domain m with
  | Some (d :: ds) => negb (obj_in other (d :: ds))
  | _ => false
  end.


(** The methods [_unify]. [metavars] is the trail, a Python list of
    [Metavar] objects, here of their ids. The recursion follows the calls of
    the source: through the fields of [self], through the value of a bound
    metavariable, and once with the arguments swapped when [other] is a
    metavariable; [fuel] bounds the depth of the calls (Python raises
    [RecursionError]). [BoxMarker] has no [_unify]. *)
Definition and_then (r : result (bool * store * list nat))
    (k : store -> list nat -> result (bool * store * list nat))
    : result (bool * store * list nat) :=
  match r with
  | Ok (true, s, mv) => k s mv
  | Ok (false, s, mv) => Ok (false, s, mv)
  | Raise e => Raise e
  end.

Fixpoint _unify (fuel : nat) (self other : obj) (s : store) (metavars : list nat)
    {struct fuel} : result (bool * store * list nat) :=
  match fuel with
  | O => Raise RecursionError
  | S fuel =>
    let unify_all :=
      fix unify_all (ts : list (obj * obj)) (s : store) (mv : list nat)
          {struct ts} : result (bool * store * list nat) :=
        match ts with
        | [] => Ok (true, s, mv)
        | (t1, t2) :: ts' => and_then (_unify fuel t1 t2 s mv) (unify_all ts')
        end in
    match self with
    | Metavar i =>
        match s !! i with
        | None => Raise AttributeError
        | Some m =>
            if domain_rejects m other then Ok (false, s, metavars)
            else match value m with
                 | None =>
                     Ok (true, <[i := set_value m (Some other)]> s, metavars ++ [i])
                 | Some v => _unify fuel v other s metavars
                 end
        end
    | BoxMarker => Raise AttributeError
    | _ =>
        match other with
        | Metavar _ => _unify fuel other self s metavars
        | _ =>
            match self, other with
            | Bot, Bot => Ok (true, s, metavars)
            | Not a, Not b => _unify fuel a b s metavars
            | Box a, Box b => _unify fuel a b s metavars
            | Dia a, Dia b => _unify fuel a b s metavars
            | And a1 a2, And b1 b2
            | Or a1 a2, Or b1 b2
            | Imp a1 a2, Imp b1 b2
            | Iff a1 a2, Iff b1 b2
            | Eq a1 a2, Eq b1 b2
            | Forall a1 a2, Forall b1 b2
            | Exists a1 a2, Exists b1 b2 =>
                and_then (_unify fuel a1 b1 s metavars)
                         (fun s1 mv1 => _unify fuel a2 b2 s1 mv1)
            | Func n xs, Func n' ys
            | Pred n xs, Pred n' ys =>
                if String.eqb n n' && Nat.eqb (length xs) (length ys)
                then unify_all (combine xs ys) s metavars
                else Ok (false, s, metavars)
            | Var n, Var n' => Ok (String.eqb n n', s, metavars)
            | _, _ => Ok (false, s, metavars)
            end
        end
    end
  end.

(** The classes that inherit [unify] from [Formula]; [Func], [Var] (class
    [Term]), [Metavar] and [BoxMarker] do not. *)
Definition is_Formula (o : obj) : bool :=
  match o with
  | Func _ _ | Var _ | BoxMarker | Metavar _ => false
  | _ => true
  end.

(** [for metavar in _metavars: metavar.value = None] *)
Definition reset_all (mv : list nat) (s : store) : store :=
  fold_left (fun s i => alter (fun m => set_value m None) i s) mv s.

(** [Formula.unify] *)
Definition unify (fuel : nat) (self other : obj) (s : store) (metavars : list nat)
    : result (bool * store * list nat) :=
  if is_Formula self then
    match _unify fuel self other s [] with
    | Ok (true, s', _metavars) => Ok (true, s', metavars ++ _metavars)
    | Ok (false, s', _metavars) => Ok (false, reset_all _metavars s', metavars)
    | Raise e => Raise e
    end
  else Raise AttributeError.


(** A store with two unbound metavariables, the second with a domain. *)
Definition two_unbound : store :=
  <[1 := {| domain := None; value := None |}]>
    (<[2 := {| domain := Some [Pred "A" []; Pred "B" []]; value := None |}]> ∅).


(** The objects without metavariables: the formulas and terms the parser
    builds. *)
Fixpoint metavar_free (o : obj) : bool :=
  match o with
  | Metavar _ => false
  | Bot | Var _ | BoxMarker => true
  | Not a | Box a | Dia a => metavar_free a
  | And a b | Or a b | Imp a b | Iff a b | Eq a b | Forall a b | Exists a b =>
      metavar_free a && metavar_free b
  | Func _ args | Pred _ args => forallb metavar_free args
  end.

(** The objects all of whose parts have a method [_unify]: [BoxMarker] is
    the one class without it. *)
Fixpoint unifiable (o : obj) : bool :=
  match o with
  | BoxMarker => false
  | Bot | Var _ | Metavar _ => true
  | Not a | Box a | Dia a => unifiable a
  | And a b | Or a b | Imp a b | Iff a b | Eq a b | Forall a b | Exists a b =>
      unifiable a && unifiable b
  | Func _ args | Pred _ args => forallb unifiable args
  end.

(** The depth of the calls of [_unify] on an object. *)
Fixpoint height (o : obj) : nat :=
  match o with
  | Not a | Box a | Dia a => S (height a)
  | And a b | Or a b | Imp a b | Iff a b | Eq a b | Forall a b | Exists a b =>
      S (Nat.max (height a) (height b))
  | Func _ args | Pred _ args => S (fold_right (fun t n => Nat.max (height t) n) 0 args)
  | _ => 1
  end.

End Unify.

(** ** Façade ([cli.py]) *)

Module Cli.
Import Syntax.

(** The logic tokens, the classes that [checker.py] exports and the
    dictionary [logics] lists. *)
Inductive logic : Type :=
  | TFL | FOL | MLK | MLT | MLS4 | MLS5 | FOMLK | FOMLT | FOMLS4 | FOMLS5.

(** [logic.__name__] *)
Definition logic_name (L : logic) : string :=
  match L with
  | TFL => "TFL" | FOL => "FOL" | MLK => "MLK" | MLT => "MLT"
  | MLS4 => "MLS4" | MLS5 => "MLS5" | FOMLK => "FOMLK" | FOMLT => "FOMLT"
  | FOMLS4 => "FOMLS4" | FOMLS5 => "FOMLS5"
  end.

Definition is_TFL (L : logic) : bool := match L with TFL => true | _ => false end.
Definition is_FOL (L : logic) : bool := match L with FOL => true | _ => false end.
(** [logic in (MLK, MLT, MLS4, MLS5)] *)
Definition is_ML (L : logic) : bool :=
  match L with MLK | MLT | MLS4 | MLS5 => true | _ => false end.
(** [logic in (FOMLK, FOMLT, FOMLS4, FOMLS5)] *)
Definition is_FOML (L : logic) : bool :=
  match L with FOMLK | FOMLT | FOMLS4 | FOMLS5 => true | _ => false end.

Section parse_and_verify.
  (** [parse_formula] belongs to [parser.py] and [str] is the renderer
      [Formula.__str__]; the first produces the formula that is checked, the
      second only serves the error message. *)
Variable parse_formula : string -> result obj.
Variable str : obj -> string.

Definition quote : string := String (ascii_of_nat 34) EmptyString.

Definition not_well_formed (f : obj) (L : logic) : exn :=
    ParsingError
      (quote ++ str f ++ quote ++ " is not a well-formed " ++ logic_name L
         ++ " formula.")%string.

  (** The body of [parse_and_verify_formula] after the call of the
      parser. *)
Definition verify_formula (f : obj) (L : logic) : result obj :=
    if is_TFL L && is_tfl_formula f then Ok f
    else if is_FOL L && is_fol_formula f then Ok f
    else if is_ML L && is_ml_formula f then Ok f
    else if is_FOML L then Ok f
    else Raise (not_well_formed f L).

Definition parse_and_verify_formula (f : string) (L : logic) : result obj :=
    match parse_formula f with
    | Ok f => verify_formula f L
    | Raise e => Raise e
    end.
End parse_and_verify.


(** What [parse_and_verify_formula] checks for each logic. *)
Definition well_formed (L : logic) (f : obj) : bool :=
  match L with
  | TFL => is_tfl_formula f
  | FOL => is_fol_formula f
  | MLK | MLT | MLS4 | MLS5 => is_ml_formula f
  | FOMLK | FOMLT | FOMLS4 | FOMLS5 => true
  end.

(** The formula [P(x)], with the variable [x] free. *)
Definition P_of_x : obj := Pred "P" [Var "x"].


End Cli.

(** ** The proof-search prover ([prover.py]) *)

Module Prover.
Import Syntax.

(** *** Proof objects

    Every [_ProofObject] takes its [id] from the class counter
    [_ProofObject.count]. A [_Line] is never assigned to after its
    construction, so a line sits in a sequence as a value; a [_Proof] is
    mutable and shared, so it sits there as a reference (its [id]) into the
    table of proof objects. The sequence of a [_Proof] is itself a Python
    list object, which [commit_best_branch] and [ImpE_force] share between
    two proofs ([self.seq = branch.seq]): the field [seq] is the address of
    that list. *)

Record _Line : Type := mk_Line {
  line_id : nat;
  formula : obj;
  rule : string;
  citations : list nat
}.

(** [self.is_assumption = self.rule in ("PR", "AS")] *)
Definition is_assumption (ln : _Line) : bool :=
  String.eqb (rule ln) "PR" || String.eqb (rule ln) "AS".

Inductive elem : Type :=
  | ELine (ln : _Line)
  | ERef (pid : nat).

Definition is_line (e : elem) : bool := match e with ELine _ => true | ERef _ => false end.

(** The id of a proof object, line or subproof. *)
Definition elem_id (e : elem) : nat :=
  match e with ELine ln => line_id ln | ERef pid => pid end.

(** Python [set]s of formulas are lists read up to membership. *)
Record _Proof : Type := mk_Proof {
  seq : nat;
  goal : obj;
  formulas : list obj;
  assumptions : list obj;
  line_count : Z;
  ip_count : Z
}.

(** The memo table [seen]: a dictionary from
    [(frozenset(assumptions), goal)] to [(cost, formulas)], with
    [cost = (ip_count, line_count)]. *)
Definition memo_key : Type := list obj * obj.
Definition memo_val : Type := (Z * Z) * list obj.
Definition memo : Type := list (memo_key * memo_val).

Record Prover : Type := mk_Prover {
  proof : nat;
  seen : nat;
  deadline : option Q
}.

(** *** The state of a run

    [count] is [_ProofObject.count]; [proofs] holds the [_Proof] objects,
    [lists] the list objects and [dicts] the dictionaries, the last two
    addressed from one allocation counter [next]. [reads] counts the calls
    of [time.monotonic()]; [entries] counts the entries of [Prover.prove]
    (it is not read by the program). *)
Record state : Type := mk_state {
  count : nat;
  proofs : gmap nat _Proof;
  lists : gmap nat (list elem);
  dicts : gmap nat memo;
  next : nat;
  reads : nat;
  entries : nat
}.

Definition M (A : Type) : Type := state -> result A * state.

Definition ret {A} (a : A) : M A := fun st => (Ok a, st).
Definition raise {A} (e : exn) : M A := fun st => (Raise e, st).
Definition bind {A B} (m : M A) (k : A -> M B) : M B :=
  fun st => match m st with
            | (Ok a, st') => k a st'
            | (Raise e, st') => (Raise e, st')
            end.

Declare Scope prover_scope.
Delimit Scope prover_scope with prover.
Notation "x <- m ;; k" := (bind m (fun x => k))
  (at level 100, m at next level, right associativity) : prover_scope.
Notation "m ;; k" := (bind m (fun _ => k))
  (at level 100, right associativity) : prover_scope.
Local Open Scope prover_scope.

(** [_ProofObject.__init__]: [count += 1; self.id = count]. *)
Definition new_id : M nat :=
  fun st =>
    let i := S (count st) in
    (Ok i, mk_state i (proofs st) (lists st) (dicts st) (next st) (reads st) (entries st)).

Definition get_proof (pid : nat) : M _Proof :=
  fun st => match proofs st !! pid with
            | Some p => (Ok p, st)
            | None => (Raise AttributeError, st)
            end.

Definition put_proof (pid : nat) (p : _Proof) : M unit :=
  fun st =>
    (Ok tt, mk_state (count st) (<[pid := p]> (proofs st)) (lists st) (dicts st)
                     (next st) (reads st) (entries st)).

Definition get_list (l : nat) : M (list elem) :=
  fun st => match lists st !! l with
            | Some xs => (Ok xs, st)
            | None => (Raise AttributeError, st)
            end.

Definition put_list (l : nat) (xs : list elem) : M unit :=
  fun st =>
    (Ok tt, mk_state (count st) (proofs st) (<[l := xs]> (lists st)) (dicts st)
                     (next st) (reads st) (entries st)).

(** A fresh list object holding [xs]. *)
Definition alloc_list (xs : list elem) : M nat :=
  fun st =>
    (Ok (next st),
     mk_state (count st) (proofs st) (<[next st := xs]> (lists st)) (dicts st)
              (S (next st)) (reads st) (entries st)).

Definition get_dict (d : nat) : M memo :=
  fun st => match dicts st !! d with
            | Some m => (Ok m, st)
            | None => (Raise AttributeError, st)
            end.

Definition put_dict (d : nat) (m : memo) : M unit :=
  fun st =>
    (Ok tt, mk_state (count st) (proofs st) (lists st) (<[d := m]> (dicts st))
                     (next st) (reads st) (entries st)).

(** A fresh dictionary holding [m]: [{}] and [seen.copy()]. *)
Definition alloc_dict (m : memo) : M nat :=
  fun st =>
    (Ok (next st),
     mk_state (count st) (proofs st) (lists st) (<[next st := m]> (dicts st))
              (S (next st)) (reads st) (entries st)).

Definition note_entry : M unit :=
  fun st =>
    (Ok tt, mk_state (count st) (proofs st) (lists st) (dicts st) (next st)
                     (reads st) (S (entries st))).

(** [proof.seq], the contents of the list the proof points to. *)
Definition get_seq (pid : nat) : M (list elem) :=
  p <- get_proof pid ;; get_list (seq p).

(** *** Constructors and methods of [_Line] and [_Proof] *)

(** [_Line(formula, rule, citations)] *)
Definition new_line (f : obj) (r : string) (c : list nat) : M _Line :=
  i <- new_id ;; ret (mk_Line i f r c).

(** [_Line.copy] *)
Definition line_copy (ln : _Line) : M _Line :=
  new_line (formula ln) (rule ln) (citations ln).

(** The sums of [_Proof.init]: a subproof contributes its cached count. *)
Fixpoint sum_counts (ps : gmap nat _Proof) (xs : list elem)
    : option (Z * Z) :=
  match xs with
  | [] => Some (0, 0)%Z
  | ELine ln :: xs' =>
      match sum_counts ps xs' with
      | Some (lc, ic) =>
          Some (1 + lc, (if String.eqb (rule ln) "IP" then 1 else 0) + ic)%Z
      | None => None
      end
  | ERef q :: xs' =>
      match ps !! q, sum_counts ps xs' with
      | Some p, Some (lc, ic) => Some (line_count p + lc, ip_count p + ic)%Z
      | _, _ => None
      end
  end.

Definition line_formulas (xs : list elem) : list obj :=
  flat_map (fun e => match e with ELine ln => [formula ln] | ERef _ => [] end) xs.

Definition assumption_formulas (xs : list elem) : list obj :=
  flat_map (fun e => match e with
                     | ELine ln => if is_assumption ln then [formula ln] else []
                     | ERef _ => []
                     end) xs.

(** [_Proof.init], for a proof whose list is [l] with contents [xs]. *)
Definition init (l : nat) (g : obj) (xs : list elem) : M _Proof :=
  fun st =>
    match sum_counts (proofs st) xs with
    | Some (lc, ic) =>
        (Ok (mk_Proof l g (line_formulas xs) (assumption_formulas xs) lc ic), st)
    | None => (Raise AttributeError, st)
    end.

(** [_Proof(seq, goal)]: [__post_init__] copies the list it is given
    ([self.seq = self.seq[:]]), the setter runs [init], and only then
    the object takes its id. *)
Definition new_proof (xs : list elem) (g : obj) : M nat :=
  l <- alloc_list xs ;;
  p <- init l g xs ;;
  i <- new_id ;;
  put_proof i p ;;
  ret i.

(** [_Proof.copy] *)
Definition proof_copy (pid : nat) : M nat :=
  p <- get_proof pid ;;
  xs <- get_list (seq p) ;;
  new_proof xs (goal p).

(** The setter of [seq] with a list object that already exists
    ([self.seq = branch.seq]): the two proofs share the list from then on. *)
Definition set_seq_shared (pid : nat) (l : nat) : M unit :=
  p <- get_proof pid ;;
  xs <- get_list l ;;
  p' <- init l (goal p) xs ;;
  put_proof pid p'.

(** The setter of [seq] with a freshly built list
    ([self.seq = self.seq[n:]], [proof.seq = seq]). *)
Definition set_seq_fresh (pid : nat) (xs : list elem) : M unit :=
  l <- alloc_list xs ;;
  set_seq_shared pid l.

(** [_Proof.add], one object. *)
Definition add1 (pid : nat) (e : elem) : M unit :=
  p <- get_proof pid ;;
  p' <- match e with
        | ELine ln =>
            ret (mk_Proof (seq p) (goal p)
                   (formula ln :: formulas p)
                   (if is_assumption ln then formula ln :: assumptions p
                    else assumptions p)
                   (line_count p + 1)%Z
                   (if String.eqb (rule ln) "IP" then ip_count p + 1 else ip_count p)%Z)
        | ERef q =>
            sub <- get_proof q ;;
            ret (mk_Proof (seq p) (goal p) (formulas p) (assumptions p)
                   (line_count p + line_count sub)%Z
                   (ip_count p + ip_count sub)%Z)
        end ;;
  put_proof pid p' ;;
  xs <- get_list (seq p) ;;
  put_list (seq p) (xs ++ [e]).

(** [_Proof.add], all its arguments in order. *)
Fixpoint add (pid : nat) (es : list elem) : M unit :=
  match es with
  | [] => ret tt
  | e :: es' => add1 pid e ;; add pid es'
  end.

(** [_Proof.pop_reiteration] *)
Definition pop_reiteration (pid : nat) : M nat :=
  p <- get_proof pid ;;
  xs <- get_list (seq p) ;;
  match last xs with
  | None => raise IndexError
  | Some (ELine ln) =>
      if String.eqb (rule ln) "R" then
        put_list (seq p) (removelast xs) ;;
        put_proof pid (mk_Proof (seq p) (goal p) (formulas p) (assumptions p)
                         (line_count p - 1)%Z (ip_count p)) ;;
        match citations ln with
        | c :: _ => ret c
        | [] => raise IndexError
        end
      else ret (line_id ln)
  | Some (ERef q) => ret q
  end.

(** The order of [key(p) = (p.ip_count, p.line_count)], tuples compared
    lexicographically. *)
Definition cost : Type := (Z * Z)%type.
Definition cost_ltb (a b : cost) : bool :=
  (fst a <? fst b)%Z || ((fst a =? fst b)%Z && (snd a <? snd b)%Z).
Definition cost_leb (a b : cost) : bool := negb (cost_ltb b a).
Definition proof_cost (p : _Proof) : cost := (ip_count p, line_count p).

(** [min(branches, key=key)]: the first branch of least key. *)
Fixpoint min_by_cost (best : nat * cost) (rest : list (nat * cost)) : nat :=
  match rest with
  | [] => fst best
  | b :: rest' =>
      if cost_ltb (snd b) (snd best) then min_by_cost b rest'
      else min_by_cost best rest'
  end.

Fixpoint branch_costs (bs : list nat) : M (list (nat * cost)) :=
  match bs with
  | [] => ret []
  | b :: bs' =>
      p <- get_proof b ;;
      r <- branch_costs bs' ;;
      ret ((b, proof_cost p) :: r)
  end.

(** [_Proof.commit_best_branch] *)
Definition commit_best_branch (pid : nat) (branches : list nat) : M bool :=
  cs <- branch_costs branches ;;
  match cs with
  | [] => ret false
  | c :: cs' =>
      best <- get_proof (min_by_cost c cs') ;;
      set_seq_shared pid (seq best) ;;
      ret true
  end.


(** [find_subproof] *)
Fixpoint find_subproof (xs : list elem) (assumption conclusion : obj)
    : M (option nat) :=
  match xs with
  | [] => ret None
  | ELine _ :: xs' => find_subproof xs' assumption conclusion
  | ERef q :: xs' =>
      s <- get_seq q ;;
      if Nat.eqb (length s) 1 then find_subproof xs' assumption conclusion
      else
        match s, last s with
        | start :: _, Some (ELine end_) =>
            match start with
            | ELine start =>
                if obj_eqb (formula start) assumption
                   && obj_eqb (formula end_) conclusion
                then ret (Some q)
                else find_subproof xs' assumption conclusion
            | ERef _ => raise AttributeError
            end
        | _ :: _, Some (ERef _) => find_subproof xs' assumption conclusion
        | _, _ => raise IndexError
        end
  end.

(** [==] of two sequences: lists compare their lengths and then their
    members, a member being equal to itself; two [_Line]s compare their
    fields [formula], [rule] and [citations] (the [id] is not a field of the
    dataclass), two [_Proof]s their fields [_seq] and [goal]. *)
Definition line_eqb (a b : _Line) : bool :=
  obj_eqb (formula a) (formula b) && String.eqb (rule a) (rule b)
  && bool_decide (citations a = citations b).

Fixpoint seq_eqb (fuel : nat) (st : state) (xs ys : list elem) {struct fuel}
    : option bool :=
  match fuel with
  | O => None
  | S fuel =>
      let elem_eqb (x y : elem) : option bool :=
        match x, y with
        | ELine a, ELine b => Some (line_eqb a b)
        | ERef i, ERef j =>
            if Nat.eqb i j then Some true
            else match proofs st !! i, proofs st !! j with
                 | Some p, Some q =>
                     match lists st !! seq p, lists st !! seq q with
                     | Some s1, Some s2 =>
                         match seq_eqb fuel st s1 s2 with
                         | Some true => Some (obj_eqb (goal p) (goal q))
                         | r => r
                         end
                     | _, _ => None
                     end
                 | _, _ => None
                 end
        | _, _ => Some false
        end in
      if Nat.eqb (length xs) (length ys) then
        (fix go (xs ys : list elem) {struct xs} : option bool :=
           match xs, ys with
           | x :: xs', y :: ys' =>
               match elem_eqb x y with
               | Some true => go xs' ys'
               | r => r
               end
           | _, _ => Some true
           end) xs ys
      else Some false
  end.

(** [branch.seq != proof.seq] *)
Definition seq_differs (b pid : nat) : M bool :=
  xs <- get_seq b ;;
  ys <- get_seq pid ;;
  fun st => match seq_eqb (S (count st)) st xs ys with
            | Some r => (Ok (negb r), st)
            | None => (Raise RecursionError, st)
            end.

(** *** The memo table ([Prover._enter_state]) *)

Definition subset (a b : list obj) : bool := forallb (fun x => obj_in x b) a.
Definition set_eqb (a b : list obj) : bool := subset a b && subset b a.
(** [a < b] on frozensets *)
Definition strict_subset (a b : list obj) : bool := subset a b && negb (subset b a).

Definition key_eqb (k1 k2 : memo_key) : bool :=
  set_eqb (fst k1) (fst k2) && obj_eqb (snd k1) (snd k2).

(** [seen.get(key)] *)
Fixpoint memo_get (m : memo) (k : memo_key) : option memo_val :=
  match m with
  | [] => None
  | (k', v) :: m' => if key_eqb k' k then Some v else memo_get m' k
  end.

(** [seen[key] = v] *)
Fixpoint memo_set (m : memo) (k : memo_key) (v : memo_val) : memo :=
  match m with
  | [] => [(k, v)]
  | (k', v') :: m' =>
      if key_eqb k' k then (k', v) :: m' else (k', v') :: memo_set m' k v
  end.


(** The lexicographic order of costs and the inclusion of sets of formulas,
    as propositions. *)
Definition cost_lt (a b : cost) : Prop :=
  (fst a < fst b)%Z \/ (fst a = fst b /\ (snd a < snd b)%Z).


(** The body of [_enter_state] on the proof object and the dictionary it
    reads: the verdict and the dictionary it leaves. *)
Definition enter_memo (p : _Proof) (sn : memo) : bool * memo :=
  let key := (assumptions p, goal p) in
  let cost := (ip_count p, line_count p) in
  let formulas := formulas p in
  match memo_get sn key with
  | Some (prev_cost, prev_formulas) =>
      if cost_leb prev_cost cost && subset formulas prev_formulas
      then (false, sn)
      else
        let cost := if cost_ltb prev_cost cost then prev_cost else cost in
        let formulas :=
          if strict_subset formulas prev_formulas then prev_formulas
          else formulas in
        (true, memo_set sn key (cost, formulas))
  | None => (true, memo_set sn key (cost, formulas))
  end.

Definition _enter_state (self : Prover) : M bool :=
  p <- get_proof (proof self) ;;
  sn <- get_dict (seen self) ;;
  let '(ok, sn') := enter_memo p sn in
  if ok then put_dict (seen self) sn' ;; ret true else ret false.


(** *** [Eliminator]: the sweep *)

(** The first element on which [f] answers, as a [for] loop that returns
    from inside its body. *)
Fixpoint first_some {A B} (f : A -> option B) (xs : list A) : option B :=
  match xs with
  | [] => None
  | x :: xs' => match f x with Some b => Some b | None => first_some f xs' end
  end.

(** The first line of the sequence whose formula is [f]. *)
Definition line_with (f : obj) (xs : list elem) : option _Line :=
  first_some (fun e => match e with
                       | ELine ln => if obj_eqb (formula ln) f then Some ln else None
                       | ERef _ => None
                       end) xs.

(** [conjunct in proof.formulas] *)
Definition derived (p : _Proof) (f : obj) : bool := obj_in f (formulas p).

Definition add_line (pid : nat) (f : obj) (r : string) (c : list nat) : M bool :=
  ln <- new_line f r c ;;
  add pid [ELine ln] ;;
  ret true.

Definition Eliminator_R (prover : Prover) : M bool :=
  p <- get_proof (proof prover) ;;
  xs <- get_list (seq p) ;;
  if match last xs with
     | Some (ELine end_) =>
         obj_eqb (formula end_) (goal p) && negb (is_assumption end_)
     | _ => false
     end
  then ret true
  else
    match line_with (goal p) xs with
    | Some obj => add_line (proof prover) (formula obj) "R" [line_id obj]
    | None => ret false
    end.

Definition Eliminator_X (prover : Prover) : M bool :=
  p <- get_proof (proof prover) ;;
  xs <- get_list (seq p) ;;
  match first_some (fun e => match e with
                             | ELine ln =>
                                 match formula ln with Bot => Some ln | _ => None end
                             | ERef _ => None
                             end) xs with
  | Some obj => add_line (proof prover) (goal p) "X" [line_id obj]
  | None => ret false
  end.

Definition Eliminator_NotE (prover : Prover) : M bool :=
  p <- get_proof (proof prover) ;;
  xs <- get_list (seq p) ;;
  match first_some
          (fun e => match e with
                    | ELine obj =>
                        match formula obj with
                        | Not inner =>
                            match line_with inner xs with
                            | Some obj2 => Some (obj, obj2)
                            | None => None
                            end
                        | _ => None
                        end
                    | ERef _ => None
                    end) xs with
  | Some (obj, obj2) =>
      add_line (proof prover) Bot "¬E" [line_id obj; line_id obj2]
  | None => ret false
  end.

Definition Eliminator_AndE (prover : Prover) : M bool :=
  p <- get_proof (proof prover) ;;
  xs <- get_list (seq p) ;;
  match first_some
          (fun e => match e with
                    | ELine obj =>
                        match formula obj with
                        | And l r =>
                            if negb (derived p l) then Some (obj, l)
                            else if negb (derived p r) then Some (obj, r)
                            else None
                        | _ => None
                        end
                    | ERef _ => None
                    end) xs with
  | Some (obj, conjunct) => add_line (proof prover) conjunct "∧E" [line_id obj]
  | None => ret false
  end.

Definition Eliminator_ImpE (prover : Prover) : M bool :=
  p <- get_proof (proof prover) ;;
  xs <- get_list (seq p) ;;
  match first_some
          (fun e => match e with
                    | ELine obj =>
                        match formula obj with
                        | Imp l r =>
                            if derived p r then None
                            else match line_with l xs with
                                 | Some obj2 => Some (obj, obj2, r)
                                 | None => None
                                 end
                        | _ => None
                        end
                    | ERef _ => None
                    end) xs with
  | Some (obj, obj2, r) =>
      add_line (proof prover) r "→E" [line_id obj; line_id obj2]
  | None => ret false
  end.

Definition Eliminator_IffE (prover : Prover) : M bool :=
  p <- get_proof (proof prover) ;;
  xs <- get_list (seq p) ;;
  match first_some
          (fun e => match e with
                    | ELine obj =>
                        match formula obj with
                        | Iff l r =>
                            let have_left := derived p l in
                            let have_right := derived p r in
                            match (if have_left && negb have_right
                                   then line_with l xs else None) with
                            | Some obj2 => Some (obj, obj2, r)
                            | None =>
                                match (if have_right && negb have_left
                                       then line_with r xs else None) with
                                | Some obj2 => Some (obj, obj2, l)
                                | None => None
                                end
                            end
                        | _ => None
                        end
                    | ERef _ => None
                    end) xs with
  | Some (obj, obj2, f) =>
      add_line (proof prover) f "↔E" [line_id obj; line_id obj2]
  | None => ret false
  end.

(** [Eliminator.elim]: the [while True] loop, [fuel] bounding its
    iterations. *)
Fixpoint Eliminator_elim (fuel : nat) (prover : Prover) : M bool :=
  match fuel with
  | O => raise RecursionError
  | S fuel =>
      b <- Eliminator_R prover ;;
      if b then ret true else
      b <- Eliminator_X prover ;;
      if b then ret true else
      b <- Eliminator_NotE prover ;;
      if b then Eliminator_elim fuel prover else
      b <- Eliminator_AndE prover ;;
      if b then Eliminator_elim fuel prover else
      b <- Eliminator_ImpE prover ;;
      if b then Eliminator_elim fuel prover else
      b <- Eliminator_IffE prover ;;
      if b then Eliminator_elim fuel prover else
      ret false
  end.


(** *** Branching search

    [is_valid] is the oracle of [tfl_sat.py]. [rec complete p] stands for
    the call [p.prove(complete)] on a prover built by one of the rules
    below; [Prover_prove] closes the recursion. A [for] loop over
    [proof.seq] runs over the contents the list has when the loop starts:
    no rule changes that list before it leaves the loop. *)
Section search.
Variable is_valid : list obj -> obj -> bool.
Variable rec : bool -> Prover -> M bool.

  (** A loop that gathers branches: the body answers with a branch or
      passes ([continue]); in greedy mode the first branch ends the loop
      ([if not complete: break]). *)
Fixpoint collect {A} (complete : bool) (body : A -> M (option nat))
      (xs : list A) (branches : list nat) : M (list nat) :=
    match xs with
    | [] => ret branches
    | x :: xs' =>
        r <- body x ;;
        match r with
        | Some b =>
            if complete then collect complete body xs' (branches ++ [b])
            else ret (branches ++ [b])
        | None => collect complete body xs' branches
        end
    end.

  (** A loop that returns [True] from its first successful body and
      [False] at its end. *)
Fixpoint first_success {A} (body : A -> M bool) (xs : list A) : M bool :=
    match xs with
    | [] => ret false
    | x :: xs' =>
        b <- body x ;;
        if b then ret true else first_success body xs'
    end.

  (** The step shared by [NotI], [ImpI], [IffI], [OrE] and [IP] when no
      subproof is found:
      [assumption = _Line(a, "AS", ())],
      [subproof = _Proof(xs + [assumption], g)],
      [p = Prover(subproof, seen, prover.deadline)], and after a successful
      [p.prove(complete)], [subproof.seq = subproof.seq[n:]] with [n] the
      length that [base] reads. *)
Definition prove_under (prover : Prover) (complete : bool)
      (xs : list elem) (a g : obj) (mk_seen : M nat) (base : M nat)
      : M (option nat) :=
    assumption <- new_line a "AS" [] ;;
    subproof <- new_proof (xs ++ [ELine assumption]) g ;;
    sn <- mk_seen ;;
    b <- rec complete (mk_Prover subproof sn (deadline prover)) ;;
    if b then
      s <- get_seq subproof ;;
      n <- base ;;
      set_seq_fresh subproof (drop n s) ;;
      ret (Some subproof)
    else ret None.

  (** [len(proof.seq)] *)
Definition len_seq (pid : nat) : M nat :=
    s <- get_seq pid ;; ret (length s).

  (** The step shared by [AndI], [OrI] and the forcing rules:
      [branch = _Proof(xs, g)], [p = Prover(branch, seen, deadline)],
      [p.prove(complete)]. *)
Definition prove_branch (prover : Prover) (complete : bool)
      (xs : list elem) (g : obj) (mk_seen : M nat) : M (option nat) :=
    branch <- new_proof xs g ;;
    sn <- mk_seen ;;
    b <- rec complete (mk_Prover branch sn (deadline prover)) ;;
    ret (if b then Some branch else None).

Definition shared_seen (prover : Prover) : M nat := ret (seen prover).
  (** [prover.seen.copy()] *)
Definition copied_seen (prover : Prover) : M nat :=
    m <- get_dict (seen prover) ;; alloc_dict m.

  (** [NotI], [ImpI] and [IP] differ in the assumption, the goal of the
      subproof and the name of the rule. *)
Definition intro_by_subproof (prover : Prover) (complete : bool)
      (a g : obj) (r : string) : M bool :=
    xs <- get_seq (proof prover) ;;
    found <- find_subproof xs a g ;;
    match found with
    | Some subproof =>
        p <- get_proof (proof prover) ;;
        line <- new_line (goal p) r [subproof] ;;
        add (proof prover) [ELine line] ;;
        ret true
    | None =>
        xs <- get_seq (proof prover) ;;
        sub <- prove_under prover complete xs a g (shared_seen prover)
                 (len_seq (proof prover)) ;;
        match sub with
        | None => ret false
        | Some subproof =>
            p <- get_proof (proof prover) ;;
            line <- new_line (goal p) r [subproof] ;;
            add (proof prover) [ERef subproof; ELine line] ;;
            ret true
        end
    end.

Definition Introducer_NotI (prover : Prover) (complete : bool) : M bool :=
    p <- get_proof (proof prover) ;;
    match goal p with
    | Not inner => intro_by_subproof prover complete inner Bot "¬I"
    | _ => raise AttributeError
    end.

Definition Introducer_ImpI (prover : Prover) (complete : bool) : M bool :=
    p <- get_proof (proof prover) ;;
    match goal p with
    | Imp l r => intro_by_subproof prover complete l r "→I"
    | _ => raise AttributeError
    end.

Definition Introducer_IP (prover : Prover) (complete : bool) : M bool :=
    p <- get_proof (proof prover) ;;
    if is_valid [goal p] Bot then ret false
    else intro_by_subproof prover complete (Not (goal p)) Bot "IP".

Definition Introducer_AndI (prover : Prover) (complete : bool) : M bool :=
    p <- get_proof (proof prover) ;;
    match goal p with
    | And l r =>
        branches <-
          collect complete
            (fun '(conjunct1, conjunct2) =>
               xs <- get_seq (proof prover) ;;
               b1 <- prove_branch prover complete xs conjunct1 (shared_seen prover) ;;
               match b1 with
               | None => ret None
               | Some branch1 =>
                   conjunct1_id <- pop_reiteration branch1 ;;
                   xs1 <- get_seq branch1 ;;
                   b2 <- prove_branch prover complete xs1 conjunct2
                           (shared_seen prover) ;;
                   match b2 with
                   | None => ret None
                   | Some branch2 =>
                       conjunct2_id <- pop_reiteration branch2 ;;
                       p <- get_proof (proof prover) ;;
                       line <- new_line (goal p) "∧I" [conjunct1_id; conjunct2_id] ;;
                       add branch2 [ELine line] ;;
                       ret (Some branch2)
                   end
               end)
            [(l, r); (r, l)] [] ;;
        commit_best_branch (proof prover) branches
    | _ => raise AttributeError
    end.

Definition Introducer_OrI (prover : Prover) (complete : bool) : M bool :=
    p <- get_proof (proof prover) ;;
    match goal p with
    | Or l r =>
        xs <- get_list (seq p) ;;
        match first_some
                (fun e => match e with
                          | ELine obj =>
                              if obj_in (formula obj) [l; r] then Some obj else None
                          | ERef _ => None
                          end) xs with
        | Some obj => add_line (proof prover) (goal p) "∨I" [line_id obj]
        | None =>
            branches <-
              collect complete
                (fun disjunct =>
                   p <- get_proof (proof prover) ;;
                   if is_valid (assumptions p) disjunct then
                     xs <- get_seq (proof prover) ;;
                     b <- prove_branch prover complete xs disjunct
                            (shared_seen prover) ;;
                     match b with
                     | None => ret None
                     | Some branch =>
                         disjunct_id <- pop_reiteration branch ;;
                         p <- get_proof (proof prover) ;;
                         line <- new_line (goal p) "∨I" [disjunct_id] ;;
                         add branch [ELine line] ;;
                         ret (Some branch)
                     end
                   else ret None)
                [l; r] [] ;;
            commit_best_branch (proof prover) branches
        end
    | _ => raise AttributeError
    end.


  (** The two subproofs of [IffI] and [OrE]: each is looked up with
      [find_subproof] and proved when it is missing; [objs] gathers the
      ones that were proved. The second search runs on
      [seq = proof.seq + objs]. *)
Definition two_subproofs (prover : Prover) (complete : bool)
      (a1 g1 a2 g2 : obj) (mk_seen2 : M nat)
      : M (option (list elem * nat * nat)) :=
    xs <- get_seq (proof prover) ;;
    found1 <- find_subproof xs a1 g1 ;;
    r1 <- match found1 with
          | Some subproof1 => ret (Some (subproof1, []))
          | None =>
              xs <- get_seq (proof prover) ;;
              sub <- prove_under prover complete xs a1 g1 (shared_seen prover)
                       (len_seq (proof prover)) ;;
              ret (match sub with
                   | Some subproof1 => Some (subproof1, [ERef subproof1])
                   | None => None
                   end)
          end ;;
    match r1 with
    | None => ret None
    | Some (subproof1, objs) =>
        xs <- get_seq (proof prover) ;;
        let seq := xs ++ objs in
        found2 <- find_subproof seq a2 g2 ;;
        match found2 with
        | Some subproof2 => ret (Some (objs, subproof1, subproof2))
        | None =>
            sub <- prove_under prover complete seq a2 g2 mk_seen2
                     (ret (length seq)) ;;
            ret (match sub with
                 | Some subproof2 =>
                     Some (objs ++ [ERef subproof2], subproof1, subproof2)
                 | None => None
                 end)
        end
    end.

Definition Introducer_IffI (prover : Prover) (complete : bool) : M bool :=
    p <- get_proof (proof prover) ;;
    match goal p with
    | Iff l r =>
        res <- two_subproofs prover complete l r r l (shared_seen prover) ;;
        match res with
        | None => ret false
        | Some (objs, subproof1, subproof2) =>
            p <- get_proof (proof prover) ;;
            line <- new_line (goal p) "↔I" [subproof1; subproof2] ;;
            add (proof prover) (objs ++ [ELine line]) ;;
            ret true
        end
    | _ => raise AttributeError
    end.

  (** [Introducer.intro] *)
Definition Introducer_intro (prover : Prover) (complete : bool) : M bool :=
    p <- get_proof (proof prover) ;;
    match goal p with
    | Not _ => Introducer_NotI prover complete
    | And _ _ => Introducer_AndI prover complete
    | Or _ _ => Introducer_OrI prover complete
    | Imp _ _ => Introducer_ImpI prover complete
    | Iff _ _ => Introducer_IffI prover complete
    | _ => ret false
    end.

Definition Eliminator_OrE (prover : Prover) (complete : bool) : M bool :=
    p <- get_proof (proof prover) ;;
    let goal := goal p in
    xs <- get_list (seq p) ;;
    branches <-
      collect complete
        (fun e =>
           match e with
           | ELine obj =>
               match formula obj with
               | Or disjunct1 disjunct2 =>
                   res <- two_subproofs prover complete disjunct1 goal
                            disjunct2 goal (copied_seen prover) ;;
                   match res with
                   | None => ret None
                   | Some (objs, subproof1, subproof2) =>
                       line <- new_line goal "∨E"
                                 [line_id obj; subproof1; subproof2] ;;
                       xs <- get_seq (proof prover) ;;
                       branch <- new_proof (xs ++ objs ++ [ELine line]) goal ;;
                       ret (Some branch)
                   end
               | _ => ret None
               end
           | ERef _ => ret None
           end)
        xs [] ;;
    commit_best_branch (proof prover) branches.

  (** The tail shared by the forcing rules: [branch.pop_reiteration()] and
      the test [branch.seq != proof.seq]. *)
Definition progress (prover : Prover) (branch : nat) : M bool :=
    pop_reiteration branch ;;
    seq_differs branch (proof prover).

Definition Eliminator_NotE_force (prover : Prover) (complete : bool) : M bool :=
    p <- get_proof (proof prover) ;;
    if negb (is_valid (assumptions p) Bot) then ret false
    else
      xs <- get_list (seq p) ;;
      branches <-
        collect complete
          (fun e =>
             match e with
             | ELine obj =>
                 match formula obj with
                 | Not inner =>
                     xs <- get_seq (proof prover) ;;
                     b <- prove_branch prover complete xs inner
                            (shared_seen prover) ;;
                     match b with
                     | None => ret None
                     | Some branch =>
                         d <- progress prover branch ;;
                         ret (if d then Some branch else None)
                     end
                 | _ => ret None
                 end
             | ERef _ => ret None
             end)
          xs [] ;;
      commit_best_branch (proof prover) branches.

Definition Eliminator_ImpE_force (prover : Prover) (complete : bool) : M bool :=
    xs <- get_seq (proof prover) ;;
    first_success
      (fun e =>
         match e with
         | ELine obj =>
             match formula obj with
             | Imp l r =>
                 p <- get_proof (proof prover) ;;
                 if derived p r then ret false
                 else if is_valid (assumptions p) l then
                   xs <- get_seq (proof prover) ;;
                   b <- prove_branch prover complete xs l (shared_seen prover) ;;
                   match b with
                   | None => ret false
                   | Some branch =>
                       d <- progress prover branch ;;
                       if d then
                         bp <- get_proof branch ;;
                         set_seq_shared (proof prover) (seq bp) ;;
                         ret true
                       else ret false
                   end
                 else ret false
             | _ => ret false
             end
         | ERef _ => ret false
         end)
      xs.

Definition Eliminator_IffE_force (prover : Prover) (complete : bool) : M bool :=
    p <- get_proof (proof prover) ;;
    let formulas := formulas p in
    xs <- get_list (seq p) ;;
    first_success
      (fun e =>
         match e with
         | ELine obj =>
             match formula obj with
             | Iff l r =>
                 if obj_in l formulas || obj_in r formulas then ret false
                 else
                   p <- get_proof (proof prover) ;;
                   if negb (is_valid (assumptions p) l) then ret false
                   else
                     branches <-
                       collect complete
                         (fun formula =>
                            xs <- get_seq (proof prover) ;;
                            b <- prove_branch prover complete xs formula
                                   (copied_seen prover) ;;
                            match b with
                            | None => ret None
                            | Some branch =>
                                d <- progress prover branch ;;
                                ret (if d then Some branch else None)
                            end)
                         [l; r] [] ;;
                     commit_best_branch (proof prover) branches
             | _ => ret false
             end
         | ERef _ => ret false
         end)
      xs.

End search.


(** *** [Prover] *)
Section prove.
Variable is_valid : list obj -> obj -> bool.
  (** The readings of [time.monotonic()], in the order of the calls; the
    readings and the deadlines are numbers of seconds, Python floats, taken
    as rationals: the program adds and compares them. *)
Variable clock : nat -> Q.

Definition monotonic : M Q :=
    fun st =>
      (Ok (clock (reads st)),
       mk_state (count st) (proofs st) (lists st) (dicts st) (next st)
                (S (reads st)) (entries st)).

  (** [if self.deadline is not None and time.monotonic() >= self.deadline:
      raise TimeoutError()] *)
Definition check_deadline (self : Prover) : M unit :=
    match deadline self with
    | Some d =>
        t <- monotonic ;;
        if Qle_bool d t then raise TimeoutError else ret tt
    | None => ret tt
    end.

  (** [Prover.copy] *)
Definition Prover_copy (self : Prover) : M Prover :=
    b <- proof_copy (proof self) ;;
    ret (mk_Prover b (seen self) (deadline self)).

Section body.
Variable rec : bool -> Prover -> M bool.

Definition strategies (complete : bool) : list (Prover -> M bool) :=
      [ (fun p => b <- Eliminator_NotE_force is_valid rec p complete ;;
                  if b then rec complete p else ret false);
        (fun p => b <- Eliminator_ImpE_force is_valid rec p complete ;;
                  if b then rec complete p else ret false);
        (fun p => b <- Eliminator_IffE_force is_valid rec p complete ;;
                  if b then rec complete p else ret false);
        (fun p => Eliminator_OrE rec p complete);
        (fun p => Introducer_IP is_valid rec p complete) ].

    (** The loop over the strategies: each runs on [self.copy()]. *)
Definition try_strategy (self : Prover) (strategy : Prover -> M bool)
        : M (option nat) :=
      p <- Prover_copy self ;;
      b <- strategy p ;;
      ret (if b then Some (proof p) else None).

    (** [Prover.prove]; [steps] bounds the loop of [Eliminator.elim]. *)
Definition Prover_prove_body (steps : nat) (complete : bool) (self : Prover)
        : M bool :=
      note_entry ;;
      check_deadline self ;;
      ok <- _enter_state self ;;
      if negb ok then ret false else
      b <- Eliminator_elim steps self ;;
      if b then ret true else
      b <- Introducer_intro is_valid rec self complete ;;
      if b then ret true else
      branches <- collect complete (try_strategy self) (strategies complete) [] ;;
      commit_best_branch (proof self) branches.
End body.

  (** [fuel] bounds the depth of the calls of [Prover.prove]. *)
Fixpoint Prover_prove (fuel : nat) (complete : bool) (self : Prover)
      {struct fuel} : M bool :=
    match fuel with
    | O => raise RecursionError
    | S fuel' => Prover_prove_body (Prover_prove fuel') fuel complete self
    end.
End prove.


(** *** Small states for the examples *)

Definition A : obj := Pred "A" [].
Definition B : obj := Pred "B" [].
Definition C : obj := Pred "C" [].





(** The lines of a sequence, subproofs left aside. *)
Definition lines_of (xs : list elem) : list _Line :=
  flat_map (fun e => match e with ELine ln => [ln] | ERef _ => [] end) xs.

(** What the rules of the sweep may write: a line that follows by its rule
    from lines of the sequence [xs], which it cites by their ids. *)
Inductive justified (xs : list elem) : _Line -> Prop :=
  | justified_R i o :
      In o (lines_of xs) -> justified xs (mk_Line i (formula o) "R" [line_id o])
  | justified_X i f o :
      In o (lines_of xs) -> formula o = Bot ->
      justified xs (mk_Line i f "X" [line_id o])
  | justified_NotE i a o o2 :
      In o (lines_of xs) -> In o2 (lines_of xs) ->
      formula o = Not a -> formula o2 = a ->
      justified xs (mk_Line i Bot "¬E" [line_id o; line_id o2])
  | justified_AndE i l r f o :
      In o (lines_of xs) -> formula o = And l r -> f = l \/ f = r ->
      justified xs (mk_Line i f "∧E" [line_id o])
  | justified_ImpE i l r o o2 :
      In o (lines_of xs) -> In o2 (lines_of xs) ->
      formula o = Imp l r -> formula o2 = l ->
      justified xs (mk_Line i r "→E" [line_id o; line_id o2])
  | justified_IffE i l r f f2 o o2 :
      In o (lines_of xs) -> In o2 (lines_of xs) ->
      formula o = Iff l r -> formula o2 = f2 ->
      (f2 = l /\ f = r) \/ (f2 = r /\ f = l) ->
      justified xs (mk_Line i f "↔E" [line_id o; line_id o2]).

(** Lines added one after the other, each justified by the sequence before
    it. *)
Fixpoint derivation (xs : list elem) (new : list _Line) : Prop :=
  match new with
  | [] => True
  | ln :: new' => justified xs ln /\ derivation (xs ++ [ELine ln]) new'
  end.

(** The proof ends with its goal: the last object of the sequence is a
    line, not an assumption, whose formula is the goal. *)
Definition ends_with (g : obj) (xs : list elem) : Prop :=
  exists ln, last xs = Some (ELine ln) /\ formula ln = g /\ is_assumption ln = false.
(** What [add_line] leaves, for the proof [p] at [pid] with the sequence
    [xs]. *)
Definition with_line (p : _Proof) (ln : _Line) : _Proof :=
  mk_Proof (seq p) (goal p) (formula ln :: formulas p)
    (if is_assumption ln then formula ln :: assumptions p else assumptions p)
    (line_count p + 1)%Z
    (if String.eqb (rule ln) "IP" then ip_count p + 1 else ip_count p)%Z.

Definition after_add_line (st : state) (pid : nat) (p : _Proof) (xs : list elem)
    (ln : _Line) : state :=
  mk_state (line_id ln) (<[pid := with_line p ln]> (proofs st))
    (<[seq p := xs ++ [ELine ln]]> (lists st)) (dicts st) (next st) (reads st)
    (entries st).

(** One rule of the sweep: it answers [False] and changes nothing, or it
    appends one justified line with a fresh id and answers [True]. *)
Definition sweep_step (rule_ : Prover -> M bool) : Prop :=
  forall prover p xs st,
    proofs st !! proof prover = Some p -> lists st !! seq p = Some xs ->
    rule_ prover st = (Ok false, st)
    \/ exists f r c,
         justified xs (mk_Line (S (count st)) f r c)
         /\ is_assumption (mk_Line (S (count st)) f r c) = false
         /\ rule_ prover st
            = (Ok true, after_add_line st (proof prover) p xs
                          (mk_Line (S (count st)) f r c)).

(** What the sweep leaves, from the proof [p] at [pid] with the sequence
    [xs]: the lines [new] were appended and nothing else was touched. *)
Definition swept (st : state) (pid : nat) (p : _Proof) (xs : list elem)
    (new : list _Line) (st' : state) : Prop :=
  exists p',
    proofs st' = <[pid := p']> (proofs st)
    /\ seq p' = seq p /\ goal p' = goal p
    /\ line_count p' = (line_count p + Z.of_nat (length new))%Z
    /\ lists st' = <[seq p := xs ++ List.map ELine new]> (lists st)
    /\ dicts st' = dicts st
    /\ count st' = count st + length new
    /\ List.map line_id new = List.seq (S (count st)) (length new).

(** Two lists that stand for the same Python set. *)
Definition same_members (a b : list obj) : Prop := forall f, In f a <-> In f b.

(** The cached fields of [p] are what [_Proof.init] computes from the
    sequence [xs]. *)
Definition cached (st : state) (p : _Proof) (xs : list elem) : Prop :=
  sum_counts (proofs st) xs = Some (line_count p, ip_count p)
  /\ same_members (formulas p) (line_formulas xs)
  /\ same_members (assumptions p) (assumption_formulas xs).

(** The premises [A] and [A → B], in a proof of goal [g]. *)
Definition mp_seq : list elem :=
  [ELine (mk_Line 1 A "PR" []); ELine (mk_Line 2 (Imp A B) "PR" [])].

Definition mp_proof (g : obj) : _Proof := mk_Proof 0 g [A; Imp A B] [A; Imp A B] 2 0.

Definition mp_state (g : obj) : state :=
  mk_state 3 {[ 3 := mp_proof g ]} {[ 0 := mp_seq ]} {[ 1 := [] ]} 2 0 0.

(** The subproof 3 from [A] to [A], and three proofs of goal [A → A] that
    hold it; the proof 5 has one line more. *)
Definition sub_seq : list elem :=
  [ELine (mk_Line 1 A "AS" []); ELine (mk_Line 2 A "R" [1])].

Definition branch_state : state :=
  mk_state 6
    (<[ 3 := mk_Proof 0 A [A] [A] 2 0 ]>
       (<[ 4 := mk_Proof 1 (Imp A A) [] [] 2 0 ]>
          (<[ 5 := mk_Proof 2 (Imp A A) [Imp A A] [] 3 0 ]>
             {[ 6 := mk_Proof 3 (Imp A A) [] [] 2 0 ]})))
    (<[ 0 := sub_seq ]>
       (<[ 1 := [ERef 3] ]>
          (<[ 2 := [ERef 3; ELine (mk_Line 6 (Imp A A) "→I" [3])] ]>
             {[ 3 := [ERef 3] ]})))
    {[ 4 := [] ]} 5 0 0.

(** The exceptions a search may end with: the failures of the interpreter
    on a missing attribute, an index out of range or a recursion too deep,
    and [TimeoutError] when the prover has a deadline. *)
Definition search_exn (D : option Q) (e : exn) : bool :=
  match e with
  | AttributeError | IndexError | RecursionError => true
  | TimeoutError => match D with Some _ => true | None => false end
  | _ => false
  end.

(** The clock between two states of a search with the deadline [D]: read
    once for each entry of [Prover.prove], and not at all without a
    deadline. The counters only grow. *)
Definition clock_ok (D : option Q) (st st' : state) : Prop :=
  match D with
  | Some _ => reads st' + entries st = reads st + entries st'
  | None => reads st' = reads st
  end
  /\ entries st <= entries st' /\ count st <= count st' /\ next st <= next st'.

Definition quiet (D : option Q) {A} (m : M A) : Prop :=
  forall st r st', m st = (r, st') ->
    clock_ok D st st' /\ forall e, r = Raise e -> search_exn D e = true.

End Prover.

(** ** Post-processing ([prover.py], class [Processor])

    [Processor] walks the tree of proof objects below the proof it is
    given and rebuilds every sequence; it is modelled on that tree. In the
    tree a subproof stands where the reference to it stood: the search
    never puts one [_Proof] object at two places of a proof. *)

Module Processor.
Import Syntax.
Import Prover.

#[warnings="-register-all"]
Inductive pobj : Type :=
  | PLine (ln : _Line)
  | PProof (id : nat) (seq : list pobj) (goal : obj).

Definition pobj_is_line (o : pobj) : bool :=
  match o with PLine _ => true | PProof _ _ _ => false end.

(** [obj.line_count] of [_Proof.init]: the lines below a proof object. *)
Fixpoint count_lines (o : pobj) : nat :=
  match o with
  | PLine _ => 1
  | PProof _ s _ => fold_right (fun o n => count_lines o + n) 0 s
  end.

(** Dictionaries from ids; a set of citers is a list. *)
Abbreviation citers := (gmap nat (list nat)).

Definition add_citer (c citer : nat) (m : citers) : citers :=
  <[c := default [] (m !! c) ++ [citer]]> m.

(** [_Proof.id_to_citers], one object of the sequence at a time. *)
Fixpoint citers_step (m : citers) (o : pobj) {struct o} : citers :=
  match o with
  | PLine ln =>
      <[line_id ln := []]>
        (fold_left (fun m c => add_citer c (line_id ln) m) (citations ln) m)
  | PProof i s _ =>
      <[i := []]>
        (union_with (fun a b => Some (a ++ b)) m (fold_left citers_step s ∅))
  end.

Definition id_to_citers (s : list pobj) : citers := fold_left citers_step s ∅.

(** [_Proof.id_to_obj] *)
Fixpoint obj_step (m : gmap nat _Line) (o : pobj) {struct o} : gmap nat _Line :=
  match o with
  | PLine ln => <[line_id ln := ln]> m
  | PProof _ s _ => fold_left obj_step s ∅ ∪ m
  end.

Definition id_to_obj (s : list pobj) : gmap nat _Line := fold_left obj_step s ∅.

(** One pass of the [for] loop of [remove_uncited] over the objects from
    index [idx] on, [n = len(proof.seq)]; [sub] processes a subproof. *)
Fixpoint remove_pass (sub : list pobj -> result (list pobj))
    (m : citers) (n idx : nat) (s : list pobj) : result (list pobj) :=
  match s with
  | [] => Ok []
  | o :: s' =>
      match o with
      | PProof i ss g =>
          match sub ss with
          | Ok ss' =>
              match remove_pass sub m n (S idx) s' with
              | Ok r => Ok (PProof i ss' g :: r)
              | Raise e => Raise e
              end
          | Raise e => Raise e
          end
      | PLine ln =>
          if is_assumption ln || Nat.eqb idx (n - 1) then
            match remove_pass sub m n (S idx) s' with
            | Ok r => Ok (o :: r)
            | Raise e => Raise e
            end
          else
            match m !! line_id ln with
            | None => Raise KeyError
            | Some cs =>
                match remove_pass sub m n (S idx) s' with
                | Ok r => Ok (match cs with [] => r | _ => o :: r end)
                | Raise e => Raise e
                end
            end
      end
  end.

(** [Processor.remove_uncited] on the sequence of a proof; [fuel] bounds
    the nesting of the calls and the iterations of the [while] loop. *)
Fixpoint remove_uncited (fuel : nat) (s : list pobj) (m : citers)
    {struct fuel} : result (list pobj) :=
  match fuel with
  | O => Raise RecursionError
  | S fuel =>
      match remove_pass (fun ss => remove_uncited fuel ss m) m (length s) 0 s with
      | Ok s' =>
          if Nat.eqb (length s') (length s) then Ok s'
          else remove_uncited fuel s' (id_to_citers s')
      | Raise e => Raise e
      end
  end.

(** [all(id_to_obj[c].rule == "R" for c in citers)] *)
Fixpoint all_reiterations (io : gmap nat _Line) (cs : list nat) : result bool :=
  match cs with
  | [] => Ok true
  | c :: cs' =>
      match io !! c with
      | None => Raise KeyError
      | Some ln => if String.eqb (rule ln) "R" then all_reiterations io cs' else Ok false
      end
  end.

(** [Processor.replace_reiterations]. [replace] is the dictionary the calls
    share and [cnt] is [_ProofObject.count], which [line.copy()] advances.
    [replace_obj] is the body of the loop for the object at index [idx] of
    a sequence of length [n]: what it appends to [seq]. *)
Fixpoint replace_obj (io : gmap nat _Line) (ic : citers) (n idx : nat)
    (o : pobj) (replace : gmap nat _Line) (cnt : nat) {struct o}
    : result (list pobj * gmap nat _Line * nat) :=
  match o with
  | PProof i ss g =>
      match (fix loop (idx : nat) (s : list pobj) (replace : gmap nat _Line)
                 (cnt : nat) {struct s}
               : result (list pobj * gmap nat _Line * nat) :=
               match s with
               | [] => Ok ([], replace, cnt)
               | x :: s' =>
                   match replace_obj io ic (length ss) idx x replace cnt with
                   | Ok (out, replace, cnt) =>
                       match loop (S idx) s' replace cnt with
                       | Ok (r, replace, cnt) => Ok (out ++ r, replace, cnt)
                       | Raise e => Raise e
                       end
                   | Raise e => Raise e
                   end
               end) 0 ss replace cnt with
      | Ok (ss', replace, cnt) => Ok ([PProof i ss' g], replace, cnt)
      | Raise e => Raise e
      end
  | PLine ln =>
      match replace !! line_id ln with
      | Some line =>
          Ok ([PLine (mk_Line (S cnt) (formula line) (rule line) (citations line))],
              replace, S cnt)
      | None =>
          if is_assumption ln || Nat.eqb idx (n - 1) then Ok ([o], replace, cnt)
          else
            match ic !! line_id ln with
            | None => Raise KeyError
            | Some cs =>
                match all_reiterations io cs with
                | Raise e => Raise e
                | Ok false => Ok ([o], replace, cnt)
                | Ok true =>
                    Ok ([], fold_left (fun rp c => <[c := ln]> rp) cs replace, cnt)
                end
            end
      end
  end.

(** The loop of [replace_reiterations] over a sequence of length [n]. *)
Fixpoint replace_loop (io : gmap nat _Line) (ic : citers) (n idx : nat)
    (s : list pobj) (replace : gmap nat _Line) (cnt : nat) {struct s}
    : result (list pobj * gmap nat _Line * nat) :=
  match s with
  | [] => Ok ([], replace, cnt)
  | x :: s' =>
      match replace_obj io ic n idx x replace cnt with
      | Ok (out, replace, cnt) =>
          match replace_loop io ic n (S idx) s' replace cnt with
          | Ok (r, replace, cnt) => Ok (out ++ r, replace, cnt)
          | Raise e => Raise e
          end
      | Raise e => Raise e
      end
  end.

Definition replace_reiterations (io : gmap nat _Line) (ic : citers)
    (s : list pobj) (replace : gmap nat _Line) (cnt : nat)
    : result (list pobj * gmap nat _Line * nat) :=
  replace_loop io ic (length s) 0 s replace cnt.

(** The proofs of [checker.py], as [Processor.translate] builds them:
    [Line(idx, formula, Justification(rule, citations))] and
    [Proof(seq, context)], the context being the objects that precede. A
    citation is a line number or, for a subproof, the pair of its first and
    last line numbers. The rule is kept by its name, under which
    [translate] looks it up in the catalogue [Rules]. *)
Inductive citation : Type :=
  | CiteLine (idx : nat)
  | CiteRange (first last : nat).

#[warnings="-register-all"]
Inductive cobj : Type :=
  | Line (idx : nat) (f : obj) (rule : string) (cites : list citation)
  | Proof (seq : list cobj).

(** [tuple(id_to_idx[c] for c in obj.citations)] *)
Fixpoint translate_citations (id_to_idx : gmap nat citation) (cs : list nat)
    : result (list citation) :=
  match cs with
  | [] => Ok []
  | c :: cs' =>
      match id_to_idx !! c with
      | None => Raise KeyError
      | Some i =>
          match translate_citations id_to_idx cs' with
          | Ok r => Ok (i :: r)
          | Raise e => Raise e
          end
      end
  end.

(** [Processor.translate]: the body of its loop for one object, with the
    next line number and the dictionary [id_to_idx]. *)
Fixpoint translate_obj (o : pobj) (idx : nat) (id_to_idx : gmap nat citation)
    {struct o} : result (cobj * nat * gmap nat citation) :=
  match o with
  | PLine ln =>
      match translate_citations id_to_idx (citations ln) with
      | Raise e => Raise e
      | Ok cs =>
          Ok (Line idx (formula ln) (rule ln) cs, S idx,
              <[line_id ln := CiteLine idx]> id_to_idx)
      end
  | PProof i ss g =>
      match (fix loop (s : list pobj) (idx : nat) (m : gmap nat citation)
                 {struct s} : result (list cobj * nat * gmap nat citation) :=
               match s with
               | [] => Ok ([], idx, m)
               | x :: s' =>
                   match translate_obj x idx m with
                   | Ok (c, idx, m) =>
                       match loop s' idx m with
                       | Ok (r, idx, m) => Ok (c :: r, idx, m)
                       | Raise e => Raise e
                       end
                   | Raise e => Raise e
                   end
               end) ss idx id_to_idx with
      | Raise e => Raise e
      | Ok (sub, _, m) =>
          let new_idx := idx + count_lines o in
          Ok (Proof sub, new_idx, <[i := CiteRange idx (new_idx - 1)]> m)
      end
  end.

(** [Processor.translate] on the sequence of a proof. *)
Fixpoint translate (s : list pobj) (idx : nat) (id_to_idx : gmap nat citation)
    {struct s} : result (list cobj * nat * gmap nat citation) :=
  match s with
  | [] => Ok ([], idx, id_to_idx)
  | x :: s' =>
      match translate_obj x idx id_to_idx with
      | Ok (c, idx, m) =>
          match translate s' idx m with
          | Ok (r, idx, m) => Ok (c :: r, idx, m)
          | Raise e => Raise e
          end
      | Raise e => Raise e
      end
  end.

(** [Processor.process] on the sequence of the proof, with the counter of
    ids: the translated proof, and the sequence and the counter it leaves
    behind. *)
Definition process (fuel : nat) (s : list pobj) (cnt : nat)
    : result (list cobj * list pobj * nat) :=
  match remove_uncited fuel s (id_to_citers s) with
  | Raise e => Raise e
  | Ok s1 =>
      match replace_reiterations (id_to_obj s1) (id_to_citers s1) s1 ∅ cnt with
      | Raise e => Raise e
      | Ok (s2, _, cnt') =>
          match translate s2 1 ∅ with
          | Raise e => Raise e
          | Ok (c, _, _) => Ok (c, s2, cnt')
          end
      end
  end.

(** Induction on the tree of proof objects, with the hypothesis for every
    member of a subproof. *)
Section pobj_induction.
Variable P : pobj -> Prop.
Hypothesis HLine : forall ln, P (PLine ln).
Hypothesis HProof : forall i s g, List.Forall P s -> P (PProof i s g).

Fixpoint pobj_ind' (o : pobj) : P o :=
  match o with
  | PLine ln => HLine ln
  | PProof i s g =>
      HProof i s g
        ((fix go (l : list pobj) : List.Forall P l :=
            match l with
            | [] => @List.Forall_nil pobj P
            | x :: l' => @List.Forall_cons pobj P x l' (pobj_ind' x) (go l')
            end) s)
  end.
End pobj_induction.

(** The exceptions of [Processor]: a key that a dictionary lacks, or a
    recursion too deep. *)
Definition processor_exn (e : exn) : Prop := e = KeyError \/ e = RecursionError.

End Processor.

(** ** The SAT oracle ([tfl_sat.py]) *)

Module TflSat.
Import Syntax.

(** Modelled from the spec: [tfl_sat.py] is not among the sources. Section
    4.6 of the specification: [prop_vars] returns the atomic subformulas
    treated as booleans (a [Pred], an [Eq], a quantified or a modal formula
    is opaque), [evaluate] is standard Boolean evaluation, [countermodel]
    enumerates the assignments and returns the first model of the premises
    that falsifies the conclusion, and [is_valid] holds when there is
    none. *)
Fixpoint prop_vars (f : obj) : list obj :=
  match f with
  | Bot => []
  | Not a => prop_vars a
  | And a b | Or a b | Imp a b | Iff a b => prop_vars a ++ prop_vars b
  | _ => [f]
  end.

Definition assignment : Type := list (obj * bool).

Fixpoint lookup_atom (a : assignment) (f : obj) : bool :=
  match a with
  | [] => false
  | (k, v) :: a' => if obj_eqb k f then v else lookup_atom a' f
  end.

Fixpoint evaluate (f : obj) (a : assignment) : bool :=
  match f with
  | Bot => false
  | Not x => negb (evaluate x a)
  | And x y => evaluate x a && evaluate y a
  | Or x y => evaluate x a || evaluate y a
  | Imp x y => implb (evaluate x a) (evaluate y a)
  | Iff x y => Bool.eqb (evaluate x a) (evaluate y a)
  | _ => lookup_atom a f
  end.

Fixpoint dedup (xs : list obj) : list obj :=
  match xs with
  | [] => []
  | x :: xs' => if obj_in x xs' then dedup xs' else x :: dedup xs'
  end.

Fixpoint assignments (atoms : list obj) : list assignment :=
  match atoms with
  | [] => [[]]
  | x :: atoms' =>
      flat_map (fun v => List.map (fun a => (x, v) :: a) (assignments atoms'))
               [true; false]
  end.

Definition is_countermodel (premises : list obj) (conclusion : obj)
    (a : assignment) : bool :=
  forallb (fun p => evaluate p a) premises && negb (evaluate conclusion a).

Definition countermodel (premises : list obj) (conclusion : obj)
    : option assignment :=
  List.find (is_countermodel premises conclusion)
    (assignments (dedup (flat_map prop_vars (premises ++ [conclusion])))).

Definition is_valid (premises : list obj) (conclusion : obj) : bool :=
  match countermodel premises conclusion with
  | None => true
  | Some _ => false
  end.

End TflSat.

(** ** The entry point [prove] ([prover.py]) *)

Module Generate.
Import Syntax.
Import Prover.
Import Processor.

(** The tree of proof objects below a sequence. *)
Fixpoint reify (fuel : nat) (st : state) (xs : list elem) {struct fuel}
    : option (list pobj) :=
  match fuel with
  | O => None
  | S fuel =>
      (fix go (xs : list elem) : option (list pobj) :=
         match xs with
         | [] => Some []
         | ELine ln :: xs' =>
             match go xs' with
             | Some r => Some (PLine ln :: r)
             | None => None
             end
         | ERef q :: xs' =>
             match proofs st !! q with
             | Some p =>
                 match lists st !! seq p with
                 | Some s =>
                     match reify fuel st s, go xs' with
                     | Some ss, Some r => Some (PProof q ss (goal p) :: r)
                     | _, _ => None
                     end
                 | None => None
                 end
             | None => None
             end
         end) xs
  end.

(** The [Problem] that [prove] returns: [Problem(TFL, premises,
    conclusion)] with the processed proof, less the premise lines, as its
    proof. *)
Record Problem : Type := mk_Problem {
  premises : list obj;
  conclusion : obj;
  problem_proof : list cobj
}.

Section prove.
  (** [countermodel] and [is_valid] belong to [tfl_sat.py]. The keys of a
      countermodel are sorted and printed, by [key_ltb] and [key_str]. *)
Context {K : Type}.
Variable countermodel : list obj -> obj -> option (list (K * bool)).
Variable key_ltb : K -> K -> bool.
Variable key_str : K -> string.
Variable is_valid : list obj -> obj -> bool.
Variable clock : nat -> Q.

Definition newline : string := String (ascii_of_nat 10) EmptyString.

  (** [str(v)] for a Boolean *)
Definition bool_str (v : bool) : string := if v then "True" else "False".

Fixpoint insert_sorted (x : K * bool) (xs : list (K * bool)) : list (K * bool) :=
    match xs with
    | [] => [x]
    | y :: xs' =>
        if key_ltb (fst x) (fst y) then x :: y :: xs'
        else y :: insert_sorted x xs'
    end.

  (** [sorted(cm.items())] *)
Definition sorted (cm : list (K * bool)) : list (K * bool) :=
    fold_right insert_sorted [] cm.

  (** ["\n".join(f"{k} : {v}" for k, v in sorted(cm.items()))] *)
Definition cm_str (cm : list (K * bool)) : string :=
    String.concat newline
      (List.map (fun '(k, v) => (key_str k ++ " : " ++ bool_str v)%string)
                (sorted cm)).

Definition invalid_argument (cm : list (K * bool)) : exn :=
    ProverError
      ("Invalid argument. Countermodel:" ++ newline ++ newline ++ cm_str cm)%string.

Definition no_proof_found : exn :=
    ProverError "Argument is valid, but no proof was found.".

  (** [[_Line(p, "PR", ()) for p in premises]] *)
Fixpoint premise_lines (ps : list obj) : M (list elem) :=
    match ps with
    | [] => ret []
    | p :: ps' =>
        ln <- new_line p "PR" [] ;;
        r <- premise_lines ps' ;;
        ret (ELine ln :: r)
    end%prover.

  (** [try: proved = p.prove(complete=True)
      except TimeoutError: proved = False] *)
Definition catch_timeout (m : M bool) : M bool :=
    fun st =>
      match m st with
      | (Raise TimeoutError, st') => (Ok false, st')
      | r => r
      end.

  (** [Processor.process(_proof)] and [proof.seq = proof.seq[len(seq):]] *)
Definition process_proof (fuel : nat) (pid n : nat) : M (list cobj) :=
    fun st =>
      match proofs st !! pid with
      | None => (Raise AttributeError, st)
      | Some p =>
          match lists st !! seq p with
          | None => (Raise AttributeError, st)
          | Some xs =>
              match reify fuel st xs with
              | None => (Raise RecursionError, st)
              | Some s =>
                  match process fuel s (count st) with
                  | Raise e => (Raise e, st)
                  | Ok (c, _, cnt) =>
                      (Ok (drop n c),
                       mk_state cnt (proofs st) (lists st) (dicts st) (next st)
                                (reads st) (entries st))
                  end
              end
          end
      end.

(** The first attempt of [prove]: the premise lines, the proof, the prover
    with the deadline [time.monotonic() + timeout], and its run in complete
    mode. *)
Definition first_attempt (fuel : nat) (premises : list obj) (conclusion : obj)
    (timeout : Q) : M (list elem * nat * bool) :=
  (seq <- premise_lines premises ;;
   _proof <- new_proof seq conclusion ;;
   now <- monotonic clock ;;
   sn <- alloc_dict [] ;;
   proved <- catch_timeout
               (Prover_prove is_valid clock fuel true
                  (mk_Prover _proof sn (Some (now + timeout)%Q))) ;;
   ret (seq, _proof, proved))%prover.

(** The fallback: a new proof and a new prover, without deadline, run in
    greedy mode. *)
Definition fallback (fuel : nat) (seq : list elem) (conclusion : obj)
    : M (nat * bool) :=
  (_proof <- new_proof seq conclusion ;;
   sn <- alloc_dict [] ;;
   b <- Prover_prove is_valid clock fuel false (mk_Prover _proof sn None) ;;
   ret (_proof, b))%prover.

Definition prove (fuel : nat) (premises : list obj) (conclusion : obj)
    (timeout : Q) : M Problem :=
  (match countermodel premises conclusion with
   | Some cm => raise (invalid_argument cm)
   | None =>
       first <- first_attempt fuel premises conclusion timeout ;;
       let '(seq, _proof, proved) := first in
       _proof <- (if proved : bool then ret _proof
                  else
                    second <- fallback fuel seq conclusion ;;
                    if snd second then ret (fst second) else raise no_proof_found) ;;
       proof <- process_proof fuel _proof (length seq) ;;
       ret (mk_Problem premises conclusion proof)
   end)%prover.

End prove.



Definition still_clock : nat -> Q := fun _ => 0%Q.

End Generate.

(** * Properties *)

(** ** Syntax *)

Section SyntaxFacts.
Import Syntax.

Lemma args_eqb_unfold xs ys :
  args_eqb xs ys =
  match xs, ys with
  | [], [] => true
  | x :: xs', y :: ys' => obj_eqb x y && args_eqb xs' ys'
  | _, _ => false
  end.
Proof. destruct xs, ys; reflexivity. Qed.

Lemma obj_eqb_refl a : obj_eqb a a = true.
Proof.
  induction a using obj_ind'; simpl; rewrite ?IHa, ?IHa1, ?IHa2, ?String.eqb_refl,
    ?Nat.eqb_refl; simpl; try reflexivity.
  - change (args_eqb args args = true).
    induction H; [reflexivity|]. rewrite args_eqb_unfold, H, IHForall. reflexivity.
  - change (args_eqb args args = true).
    induction H; [reflexivity|]. rewrite args_eqb_unfold, H, IHForall. reflexivity.
Qed.

Lemma args_eqb_eq_of xs :
  List.Forall (fun a => forall b, obj_eqb a b = true -> a = b) xs ->
  forall ys, args_eqb xs ys = true -> xs = ys.
Proof.
  induction 1 as [|x xs Hx _ IH]; intros [|y ys]; rewrite args_eqb_unfold;
    try discriminate; [reflexivity|].
  intros [H1 H2]%andb_true_iff. f_equal; auto.
Qed.

Lemma obj_eqb_true a : forall b, obj_eqb a b = true -> a = b.
Proof.
  induction a using obj_ind'; intros [] E; simpl in E; try discriminate;
    repeat match goal with
    | H : _ && _ = true |- _ => apply andb_true_iff in H; destruct H
    | H : String.eqb _ _ = true |- _ => apply String.eqb_eq in H
    | H : Nat.eqb _ _ = true |- _ => apply Nat.eqb_eq in H
    end; subst; try reflexivity;
    try (f_equal; auto; fail).
  - f_equal. apply args_eqb_eq_of; assumption.
  - f_equal. apply args_eqb_eq_of; assumption.
Qed.

Lemma obj_eqb_eq a b : obj_eqb a b = true <-> a = b.
Proof. split; [apply obj_eqb_true | intros ->; apply obj_eqb_refl]. Qed.

Lemma obj_eqb_neq a b : obj_eqb a b = false <-> a <> b.
Proof.
  rewrite <- obj_eqb_eq. destruct (obj_eqb a b); split; congruence.
Qed.


End SyntaxFacts.

(** ** The façade: [parse_and_verify_formula] *)

Section CliFacts.
Import Syntax Cli.

(** C2, as stated, fails: for [FOL] the function accepts the formula
    [P(x)], which has the free variable [x]. The parser and the renderer
    are the ones that map the text ["P(x)"] to that formula and back. *)
Lemma parse_and_verify_formula_accepts_free_variable :
  parse_and_verify_formula (fun _ => Ok P_of_x) (fun _ => "P(x)") "P(x)" FOL
    = Ok P_of_x
  /\ is_fol_formula P_of_x = true
  /\ free_vars P_of_x = [Var "x"]
  /\ is_fol_sentence P_of_x = false.
Proof. repeat split. Qed.

(** C2, amended: when the text [s] parses to [f],
    [parse_and_verify_formula(s, L)] returns [f] or raises [ParsingError];
    it raises exactly when [f] fails [is_tfl_formula] for TFL,
    [is_fol_formula] for FOL (free variables are not looked at) and
    [is_ml_formula] for MLK, MLT, MLS4 and MLS5; for the four FOML logics it
    returns every parsed formula. *)
Theorem parse_and_verify_formula_spec
    (parse_formula : string -> result obj) (str : obj -> string)
    (s : string) (f : obj) (L : logic) :
  parse_formula s = Ok f ->
  (well_formed L f = true ->
     parse_and_verify_formula parse_formula str s L = Ok f)
  /\ (well_formed L f = false ->
        parse_and_verify_formula parse_formula str s L
          = Raise (not_well_formed str f L)
        /\ exists msg, not_well_formed str f L = ParsingError msg)
  /\ (is_FOML L = true ->
        parse_and_verify_formula parse_formula str s L = Ok f).
Proof.
  intros Hp. unfold parse_and_verify_formula, verify_formula. rewrite Hp.
  repeat split.
  - destruct L; simpl; intros H; rewrite ?H; reflexivity.
  - destruct L; simpl in *; try discriminate; rewrite H; reflexivity.
  - unfold not_well_formed. eauto.
  - destruct L; simpl; try discriminate; intros _; reflexivity.
Qed.

Lemma parse_and_verify_formula_spec_witness :
  parse_and_verify_formula (fun _ => Ok P_of_x) (fun _ => "P(x)") "P(x)" TFL
    = Raise (not_well_formed (fun _ => "P(x)") P_of_x TFL).
Proof.
  apply (parse_and_verify_formula_spec (fun _ => Ok P_of_x) (fun _ => "P(x)")
           "P(x)" P_of_x TFL); reflexivity.
Defined.

End CliFacts.

(** ** Metavariables *)

Section UnifyFacts.
Import Syntax Unify.

Lemma set_value_None_id (m : metavar) : value m = None -> set_value m None = m.
Proof. destruct m; simpl; intros ->; reflexivity. Qed.

Lemma reset_all_app (xs ys : list nat) (s : store) :
  reset_all (xs ++ ys) s = reset_all ys (reset_all xs s).
Proof. unfold reset_all. apply fold_left_app. Qed.

Lemma alter_alter_commute {A} (f : A -> A) (i j : nat) (s : gmap nat A) :
  alter f i (alter f j s) = alter f j (alter f i s).
Proof.
  apply map_eq; intros k. rewrite !lookup_alter.
  repeat case_decide; subst; rewrite ?lookup_alter; repeat case_decide;
    try congruence; reflexivity.
Qed.

Lemma reset_one_commute (i : nat) (xs : list nat) (s : store) :
  reset_all xs (alter (fun m => set_value m None) i s)
  = alter (fun m => set_value m None) i (reset_all xs s).
Proof.
  revert s. induction xs as [|j xs IH]; intros s; [reflexivity|].
  unfold reset_all in *. simpl. rewrite <- IH. f_equal.
  apply alter_alter_commute.
Qed.

Lemma reset_all_commute (xs ys : list nat) (s : store) :
  reset_all xs (reset_all ys s) = reset_all ys (reset_all xs s).
Proof.
  revert s. induction xs as [|i xs IH]; intros s; [reflexivity|].
  change (reset_all (i :: xs) ?t)
    with (reset_all xs (alter (fun m => set_value m None) i t)).
  rewrite <- reset_one_commute, IH. reflexivity.
Qed.

(** A successful or failed [_unify] only appends to the trail, and undoing
    the bindings of the appended metavariables gives the store back. *)
Definition trail_invariant (s : store) (mv : list nat)
    (r : result (bool * store * list nat)) : Prop :=
  match r with
  | Ok (_, s', mv') => exists new, mv' = mv ++ new /\ reset_all new s' = s
  | Raise _ => True
  end.

#[local] Arguments trail_invariant : simpl never.

Lemma trail_invariant_refl b s mv : trail_invariant s mv (Ok (b, s, mv)).
Proof. exists []. rewrite app_nil_r. split; reflexivity. Qed.

Lemma trail_invariant_and_then s mv r k :
  trail_invariant s mv r ->
  (forall s1 mv1, trail_invariant s1 mv1 (k s1 mv1)) ->
  trail_invariant s mv (and_then r k).
Proof.
  intros Hr Hk. destruct r as [[[[] s1] mv1]|e]; simpl; [|assumption|exact I].
  destruct Hr as (new1 & -> & <-).
  specialize (Hk s1 (mv ++ new1)).
  destruct (k s1 (mv ++ new1)) as [[[b s2] mv2]|e]; simpl in *; [|exact I].
  destruct Hk as (new2 & -> & <-).
  exists (new1 ++ new2). rewrite app_assoc, reset_all_app. split; [reflexivity|].
  rewrite reset_all_commute. reflexivity.
Qed.

Lemma _unify_trail fuel : forall self other s mv,
  trail_invariant s mv (_unify fuel self other s mv).
Proof.
  induction fuel as [|fuel IH]; intros self other s mv; [exact I|].
  assert (Hall : forall ts s mv,
    trail_invariant s mv
      ((fix unify_all (ts : list (obj * obj)) (s : store) (mv : list nat)
          {struct ts} : result (bool * store * list nat) :=
          match ts with
          | [] => Ok (true, s, mv)
          | (t1, t2) :: ts' => and_then (_unify fuel t1 t2 s mv) (unify_all ts')
          end) ts s mv)).
  { induction ts as [|[t1 t2] ts IHts]; intros s0 mv0.
    - apply trail_invariant_refl.
    - apply trail_invariant_and_then; [apply IH | apply IHts]. }
  assert (Hmeta : forall i other s mv,
    trail_invariant s mv
      match s !! i with
      | None => Raise AttributeError
      | Some m =>
          if domain_rejects m other then Ok (false, s, mv)
          else match value m with
               | None => Ok (true, <[i := set_value m (Some other)]> s, mv ++ [i])
               | Some v => _unify fuel v other s mv
               end
      end).
  { intros i o s0 mv0. destruct (s0 !! i) as [m|] eqn:Hi; [|exact I].
    destruct (domain_rejects m o); [apply trail_invariant_refl|].
    destruct (value m) as [v|] eqn:Hv; [apply IH|].
    exists [i]. split; [reflexivity|].
    unfold reset_all. simpl. rewrite alter_insert_eq. simpl.
    unfold set_value at 1. simpl. 
    replace {| domain := domain m; value := None |} with m
      by (destruct m; simpl in *; congruence).
    apply insert_id. assumption. }
  destruct self; simpl; try exact I; try apply Hmeta;
    destruct other; simpl; try exact I;
    try apply trail_invariant_refl; try apply IH; try apply Hmeta;
    try (apply trail_invariant_and_then; [apply IH | intros; apply IH]).
  - destruct (_ && _); [apply Hall | apply trail_invariant_refl].
  - destruct (_ && _); [apply Hall | apply trail_invariant_refl].
Qed.

(** C1. A failed [unify] leaves the store of metavariables and the caller's
    trail as they were: every metavariable keeps its value, unbound or
    bound, so the set of bound metavariables is the same before and
    after. *)
Theorem unify_failure_restores (fuel : nat) (P C : obj) (s s' : store)
    (trail trail' : list nat) :
  unify fuel P C s trail = Ok (false, s', trail') ->
  s' = s /\ trail' = trail
  /\ (forall i m, s !! i = Some m -> value m = None ->
        exists m', s' !! i = Some m' /\ value m' = None)
  /\ (forall i m v, s !! i = Some m -> value m = Some v ->
        exists m', s' !! i = Some m' /\ value m' = Some v)
  /\ (forall i, (exists m v, s !! i = Some m /\ value m = Some v)
                <-> (exists m v, s' !! i = Some m /\ value m = Some v)).
Proof.
  unfold unify. intros H.
  destruct (is_Formula P); [|discriminate].
  pose proof (_unify_trail fuel P C s []) as Hinv.
  destruct (_unify fuel P C s []) as [[[[] s1] mv1]|e]; try discriminate.
  injection H as <- <-. unfold trail_invariant in Hinv.
  destruct Hinv as (new & Hmv & Hs). simpl in Hmv. subst mv1.
  rewrite Hs. repeat split; eauto; tauto.
Qed.


End UnifyFacts.

Section UnifyWitnesses.
Import Syntax Unify.

(** The pattern [?m1 ∧ A] against [B ∧ C]: the left conjunct binds [?m1],
    the right one fails, and the binding is undone. *)
Lemma unify_failure_restores_witness :
  match unify 5 (And (Metavar 1) (Pred "A" [])) (And (Pred "B" []) (Pred "C" []))
          two_unbound [7] with
  | Ok (false, s', trail') => s' = two_unbound /\ trail' = [7]
  | _ => False
  end.
Proof.
  destruct (unify 5 (And (Metavar 1) (Pred "A" [])) (And (Pred "B" []) (Pred "C" []))
              two_unbound [7]) as [[[[] s'] trail']|e] eqn:E.
  - vm_compute in E. discriminate.
  - destruct (unify_failure_restores _ _ _ _ _ _ _ E) as (H1 & H2 & _).
    split; assumption.
  - vm_compute in E. discriminate.
Defined.


End UnifyWitnesses.

(** ** The memo table *)

Section MemoFacts.
Import Syntax Prover.

Lemma cost_ltb_spec a b : cost_ltb a b = true <-> cost_lt a b.
Proof.
  unfold cost_ltb, cost_lt. destruct a as [a1 a2], b as [b1 b2]; simpl.
  rewrite orb_true_iff, andb_true_iff, !Z.ltb_lt, Z.eqb_eq. reflexivity.
Qed.







End MemoFacts.

Section MemoWitness.
Import Syntax Prover.


End MemoWitness.

(** ** Substitution *)

Section SubTermFacts.
Import Syntax.
Context {G : Type}.
Variable term : obj.
Variable gen : G -> obj * G.
Variable ignore : obj -> bool.

#[local] Arguments obj_eqb : simpl never.

Lemma gen_run_app n1 n2 g vs1 g1 vs2 g2 :
  gen_run gen n1 g = (vs1, g1) -> gen_run gen n2 g1 = (vs2, g2) ->
  gen_run gen (n1 + n2) g = (vs1 ++ vs2, g2).
Proof.
  revert g vs1 g1. induction n1 as [|n1 IH]; simpl; intros g vs1 g1 H1 H2.
  - injection H1 as <- <-. exact H2.
  - destruct (gen g) as [v g']. destruct (gen_run gen n1 g') as [vs g''] eqn:E.
    injection H1 as <- <-. rewrite (IH _ _ _ E H2). reflexivity.
Qed.

(** What a call of [sub_term] does, as the specification words it. *)
Definition sub_term_meets_spec (f : obj) : Prop :=
  forall g f' g', sub_term term gen ignore f g = (f', g') ->
  exists vs, Subst term ignore f vs f'
             /\ length vs = occurrences term ignore f
             /\ gen_run gen (length vs) g = (vs, g').

Lemma sub_args_meets_spec args :
  List.Forall sub_term_meets_spec args ->
  forall g args' g', sub_args term gen ignore args g = (args', g') ->
  exists vs, SubstArgs term ignore args vs args'
             /\ length vs = fold_right (fun t n => occurrences term ignore t + n) 0 args
             /\ gen_run gen (length vs) g = (vs, g').
Proof.
  induction 1 as [|t ts Ht _ IH]; simpl; intros g args' g' E.
  - injection E as <- <-. exists []. repeat split. constructor.
  - destruct (sub_term term gen ignore t g) as [t' g1] eqn:E1.
    destruct (sub_args term gen ignore ts g1) as [ts' g2] eqn:E2.
    injection E as <- <-.
    destruct (Ht _ _ _ E1) as (vs1 & S1 & L1 & R1).
    destruct (IH _ _ _ E2) as (vs2 & S2 & L2 & R2).
    exists (vs1 ++ vs2). split; [constructor; assumption|].
    rewrite length_app. split; [lia|].
    eapply gen_run_app; eassumption.
Qed.

Lemma sub_term_meets_spec_all f : sub_term_meets_spec f.
Proof.
  induction f using obj_ind'; intros g f' g' E.
  all: try (simpl in E; injection E as <- <-; exists []; repeat split;
            first [ apply Subst_Metavar | apply Subst_leaf; simpl; tauto ]).
  all: try (simpl in E;
            destruct (sub_term term gen ignore f g) as [a' g1] eqn:E1;
            injection E as <- <-;
            destruct (IHf _ _ _ E1) as (vs & S1 & L1 & R1);
            exists vs; repeat split; try assumption;
            apply (Subst_unary term ignore _ f vs a'); simpl; tauto).
  all: try (simpl in E;
            destruct (sub_term term gen ignore f1 g) as [a' g1] eqn:E1;
            destruct (sub_term term gen ignore f2 g1) as [b' g2] eqn:E2;
            injection E as <- <-;
            destruct (IHf1 _ _ _ E1) as (vs1 & S1 & L1 & R1);
            destruct (IHf2 _ _ _ E2) as (vs2 & S2 & L2 & R2);
            exists (vs1 ++ vs2); rewrite length_app;
            split; [apply (Subst_binary term ignore _ f1 f2 vs1 vs2 a' b');
                    [simpl; tauto | assumption | assumption]|];
            split; [simpl; lia | eapply gen_run_app; eassumption]).
  - (* Func *)
    simpl in E. change ((fix sub_args (ts : list obj) (g : G) {struct ts} := _) args g)
      with (sub_args term gen ignore args g) in E.
    simpl occurrences.
    destruct (obj_eqb (Func s args) term) eqn:Et.
    + apply obj_eqb_eq in Et. exists [f']. split; [|split].
      * constructor; [reflexivity | assumption].
      * reflexivity.
      * simpl. rewrite E. reflexivity.
    + apply obj_eqb_neq in Et.
      destruct (sub_args term gen ignore args g) as [args' g1] eqn:E1.
      injection E as <- <-.
      destruct (sub_args_meets_spec args H _ _ _ E1) as (vs & S1 & L1 & R1).
      exists vs. repeat split; try assumption. constructor; assumption.
  - (* Var *)
    simpl in E. simpl occurrences. destruct (obj_eqb (Var s) term) eqn:Et.
    + apply obj_eqb_eq in Et. exists [f']. split; [|split].
      * constructor; [reflexivity | assumption].
      * reflexivity.
      * simpl. rewrite E. reflexivity.
    + apply obj_eqb_neq in Et. injection E as <- <-.
      exists []. repeat split. constructor. assumption.
  - (* Pred *)
    simpl in E. change ((fix sub_args (ts : list obj) (g : G) {struct ts} := _) args g)
      with (sub_args term gen ignore args g) in E.
    destruct (sub_args term gen ignore args g) as [args' g1] eqn:E1.
    injection E as <- <-.
    destruct (sub_args_meets_spec args H _ _ _ E1) as (vs & S1 & L1 & R1).
    exists vs. repeat split; try assumption. constructor; assumption.
  - (* Forall *)
    simpl in E. simpl occurrences.
    destruct (obj_eqb f1 term) eqn:Et; simpl in E.
    + injection E as <- <-. exists []. repeat split.
      apply (Subst_bound term ignore Forall); [simpl; tauto | apply obj_eqb_eq; assumption].
    + destruct (ignore f1) eqn:Ei; simpl in E.
      * injection E as <- <-. exists []. repeat split.
        apply (Subst_ignored term ignore Forall); [simpl; tauto | assumption].
      * destruct (sub_term term gen ignore f2 g) as [a' g1] eqn:E1.
        injection E as <- <-.
        destruct (IHf2 _ _ _ E1) as (vs & S1 & L1 & R1).
        exists vs. repeat split; try assumption.
        apply (Subst_quantifier term ignore Forall); try assumption;
          [simpl; tauto | apply obj_eqb_neq; assumption].
  - (* Exists *)
    simpl in E. simpl occurrences.
    destruct (obj_eqb f1 term) eqn:Et; simpl in E.
    + injection E as <- <-. exists []. repeat split.
      apply (Subst_bound term ignore Exists); [simpl; tauto | apply obj_eqb_eq; assumption].
    + destruct (ignore f1) eqn:Ei; simpl in E.
      * injection E as <- <-. exists []. repeat split.
        apply (Subst_ignored term ignore Exists); [simpl; tauto | assumption].
      * destruct (sub_term term gen ignore f2 g) as [a' g1] eqn:E1.
        injection E as <- <-.
        destruct (IHf2 _ _ _ E1) as (vs & S1 & L1 & R1).
        exists vs. repeat split; try assumption.
        apply (Subst_quantifier term ignore Exists); try assumption;
          [simpl; tauto | apply obj_eqb_neq; assumption].
Qed.

End SubTermFacts.

Section SubTermTheorem.
Import Syntax.

(** C8. [sub_term(f, term, gen, ignore)] replaces the free occurrences of
    [term] in [f], from left to right, by the results of as many fresh
    calls of [gen()], one call for each occurrence, and leaves the
    generator in the state after these calls; below a quantifier over
    [term], and below a quantifier whose variable satisfies [ignore],
    nothing is replaced and [gen] is not called. *)
Theorem sub_term_replaces_free_occurrences {G : Type}
    (term : obj) (gen : G -> obj * G) (ignore : obj -> bool) (f : obj) (g : G) :
  (exists vs,
     Subst term ignore f vs (fst (sub_term term gen ignore f g))
     /\ length vs = occurrences term ignore f
     /\ gen_run gen (occurrences term ignore f) g
        = (vs, snd (sub_term term gen ignore f g)))
  /\ (forall v a, v = term \/ ignore v = true ->
        sub_term term gen ignore (Forall v a) g = (Forall v a, g)
        /\ sub_term term gen ignore (Exists v a) g = (Exists v a, g)).
Proof.
  split.
  - destruct (sub_term term gen ignore f g) as [f' g'] eqn:E.
    destruct (sub_term_meets_spec_all term gen ignore f g f' g' E)
      as (vs & H1 & H2 & H3).
    exists vs. rewrite <- H2. auto.
  - intros v a Hv. simpl.
    assert (E : obj_eqb v term || ignore v = true).
    { destruct Hv as [-> | ->]; [rewrite obj_eqb_refl; reflexivity | apply orb_true_r]. }
    rewrite E. split; reflexivity.
Qed.

(** X4. With the default [ignore], the occurrences of a variable that
    [sub_term] replaces are its free occurrences in the sense of
    [free_vars]: there is one exactly when the variable is free. *)
Lemma occurrences_free_vars (x : string) (f : obj) :
  In (Var x) (free_vars f) <-> occurrences (Var x) (fun _ => false) f <> 0.
Proof.
  unfold free_vars.
  assert (Hargs : forall args,
    List.Forall (fun f => In (Var x) (List.filter is_Var (atomic_terms f true))
                          <-> occurrences (Var x) (fun _ => false) f <> 0) args ->
    In (Var x) (List.filter is_Var (flat_map (fun t => atomic_terms t true) args))
    <-> fold_right (fun t n => occurrences (Var x) (fun _ => false) t + n) 0 args <> 0).
  { induction 1 as [|t ts Ht _ IH]; simpl; [tauto|].
    rewrite List.filter_app, in_app_iff, Ht, IH. lia. }
  induction f using obj_ind'; simpl; try tauto.
  all: try (rewrite List.filter_app, in_app_iff, IHf1, IHf2; lia).
  - destruct args; [simpl; tauto|]. apply Hargs. assumption.
  - destruct (String.eqb s x) eqn:E.
    + apply String.eqb_eq in E. subst. split; [lia | auto].
    + split; [|lia]. intros [H|[]]. injection H as ->.
      rewrite String.eqb_refl in E. discriminate.
  - apply Hargs. assumption.
  - rewrite orb_false_r. destruct (obj_eqb f1 (Var x)) eqn:E.
    + apply obj_eqb_eq in E. subst. split; [|lia].
      rewrite !filter_In. intros [[_ H] _]. rewrite obj_eqb_refl in H. discriminate.
    + rewrite <- IHf2, !filter_In. split; [tauto|].
      intros [H1 H2]. repeat split; try assumption.
      apply negb_true_iff. destruct (obj_eqb (Var x) f1) eqn:E'; [|reflexivity].
      apply obj_eqb_eq in E'. subst. rewrite obj_eqb_refl in E. discriminate.
  - rewrite orb_false_r. destruct (obj_eqb f1 (Var x)) eqn:E.
    + apply obj_eqb_eq in E. subst. split; [|lia].
      rewrite !filter_In. intros [[_ H] _]. rewrite obj_eqb_refl in H. discriminate.
    + rewrite <- IHf2, !filter_In. split; [tauto|].
      intros [H1 H2]. repeat split; try assumption.
      apply negb_true_iff. destruct (obj_eqb (Var x) f1) eqn:E'; [|reflexivity].
      apply obj_eqb_eq in E'. subst. rewrite obj_eqb_refl in E. discriminate.
Qed.

End SubTermTheorem.

(** ** More on the syntax *)

Section SyntaxClasses.
Import Syntax.

Lemma tfl_is_fol (f : obj) : is_tfl_formula f = true -> is_fol_formula f = true.
Proof.
  induction f using obj_ind'; simpl; try discriminate; try reflexivity;
    try (intros [H1 H2]%andb_true_iff; rewrite IHf1, IHf2 by assumption; reflexivity).
  assumption.
Qed.

Lemma tfl_is_ml (f : obj) : is_tfl_formula f = true -> is_ml_formula f = true.
Proof.
  induction f using obj_ind'; simpl; try discriminate; try reflexivity;
    try (intros [H1 H2]%andb_true_iff; rewrite IHf1, IHf2 by assumption; reflexivity);
    auto.
Qed.

Lemma tfl_no_atomic_terms (f : obj) (free : bool) :
  is_tfl_formula f = true -> atomic_terms f free = [].
Proof.
  induction f using obj_ind'; simpl; try discriminate; try reflexivity;
    try (intros [H1 H2]%andb_true_iff; rewrite IHf1, IHf2 by assumption; reflexivity).
  - assumption.
  - destruct args; [reflexivity | discriminate].
Qed.

(** X1. A formula of TFL is a formula of FOL and of ML as well: the three tests
    agree on the connectives, and a TFL atom is a predicate without
    arguments, which both others accept. *)
Theorem tfl_formula_is_fol_and_ml (f : obj) :
  is_tfl_formula f = true -> is_fol_formula f = true /\ is_ml_formula f = true.
Proof. intros H. split; [apply tfl_is_fol | apply tfl_is_ml]; assumption. Qed.

Lemma tfl_formula_is_fol_and_ml_witness :
  is_fol_formula (Imp (Pred "A" []) (Not (Pred "B" []))) = true
  /\ is_ml_formula (Imp (Pred "A" []) (Not (Pred "B" []))) = true.
Proof.
  apply (tfl_formula_is_fol_and_ml (Imp (Pred "A" []) (Not (Pred "B" [])))).
  reflexivity.
Defined.

(** X2. A formula of TFL has no atomic term: it has no constant and no free
    variable, and it is a sentence of FOL. *)
Theorem tfl_formula_is_fol_sentence (f : obj) :
  is_tfl_formula f = true ->
  constants f = [] /\ free_vars f = [] /\ is_fol_sentence f = true.
Proof.
  intros H. unfold is_fol_sentence, constants, free_vars.
  rewrite (tfl_no_atomic_terms f false H), (tfl_no_atomic_terms f true H),
    (tfl_is_fol f H).
  repeat split.
Qed.

Lemma tfl_formula_is_fol_sentence_witness :
  constants (Or (Pred "A" []) Bot) = [] /\ free_vars (Or (Pred "A" []) Bot) = []
  /\ is_fol_sentence (Or (Pred "A" []) Bot) = true.
Proof. apply (tfl_formula_is_fol_sentence (Or (Pred "A" []) Bot)). reflexivity. Defined.

(** Every atomic term is a variable or a constant, that is a function
    symbol without arguments. *)
Lemma atomic_terms_shape (f : obj) (free : bool) (t : obj) :
  In t (atomic_terms f free) ->
  (exists s, t = Var s) \/ (exists s, t = Func s []).
Proof.
  revert t. induction f using obj_ind'; simpl; intros t Ht;
    try contradiction;
    try (apply in_app_or in Ht as [Ht | Ht]; auto; fail);
    try (destruct free; [apply List.filter_In in Ht as [Ht _]|]; auto; fail);
    auto.
  - destruct args as [|a args]; [destruct Ht as [<-|[]]; eauto|].
    apply in_flat_map in Ht as (x & Hx & Ht).
    rewrite List.Forall_forall in H. eapply H; eassumption.
  - destruct Ht as [<-|[]]; eauto.
  - apply in_flat_map in Ht as (x & Hx & Ht).
    rewrite List.Forall_forall in H. eapply H; eassumption.
Qed.

(** X3. [constants] returns function symbols without arguments only, and
    [free_vars] variables only; a variable bound by the outermost
    quantifier is not free. *)
Theorem constants_and_free_vars_shape (f : obj) :
  (forall c, In c (constants f) -> exists s, c = Func s [])
  /\ (forall v, In v (free_vars f) -> exists s, v = Var s)
  /\ (forall v a, f = Forall v a \/ f = Exists v a -> ~ In v (free_vars f)).
Proof.
  unfold constants, free_vars. repeat split.
  - intros c [Hc Hf]%List.filter_In.
    destruct (atomic_terms_shape _ _ _ Hc) as [[s ->]|[s ->]]; [discriminate|eauto].
  - intros v [Hv Hf]%List.filter_In.
    destruct (atomic_terms_shape _ _ _ Hv) as [[s ->]|[s ->]]; [eauto|discriminate].
  - intros v a [-> | ->]; simpl; intros [[_ Hv]%List.filter_In _]%List.filter_In;
      rewrite obj_eqb_refl in Hv; discriminate.
Qed.
End SyntaxClasses.

Section SubTermMore.
Import Syntax.
Context {G : Type}.
Variable term : obj.
Variable gen : G -> obj * G.
Variable ignore : obj -> bool.

#[local] Arguments obj_eqb : simpl never.

Lemma sub_args_identity args :
  List.Forall (fun t => occurrences term ignore t = 0 ->
                        forall g, sub_term term gen ignore t g = (t, g)) args ->
  fold_right (fun t n => occurrences term ignore t + n) 0 args = 0 ->
  forall g, sub_args term gen ignore args g = (args, g).
Proof.
  induction 1 as [|t ts Ht _ IH]; simpl; intros H0 g; [reflexivity|].
  rewrite Ht, IH by lia. reflexivity.
Qed.

Lemma sub_term_identity (f : obj) :
  occurrences term ignore f = 0 ->
  forall g, sub_term term gen ignore f g = (f, g).
Proof.
  induction f using obj_ind'; simpl occurrences; intros H0 g; try reflexivity.
  all: try (simpl; rewrite IHf by assumption; reflexivity).
  all: try (simpl; rewrite IHf1, IHf2 by lia; reflexivity).
  - simpl. change ((fix sub_args (ts : list obj) (g : G) {struct ts} := _) args g)
      with (sub_args term gen ignore args g).
    destruct (obj_eqb (Func s args) term); [discriminate|].
    rewrite sub_args_identity by assumption. reflexivity.
  - simpl. destruct (obj_eqb (Var s) term); [discriminate | reflexivity].
  - simpl. change ((fix sub_args (ts : list obj) (g : G) {struct ts} := _) args g)
      with (sub_args term gen ignore args g).
    rewrite sub_args_identity by assumption. reflexivity.
  - simpl. destruct (obj_eqb f1 term || ignore f1); simpl; [reflexivity|].
    rewrite IHf2 by assumption. reflexivity.
  - simpl. destruct (obj_eqb f1 term || ignore f1); simpl; [reflexivity|].
    rewrite IHf2 by assumption. reflexivity.
Qed.


Lemma ml_formula_no_occurrence (f : obj) :
  is_ml_formula f = true -> occurrences term ignore f = 0.
Proof.
  induction f using obj_ind'; simpl; try discriminate; try reflexivity; auto.
  all: try (intros [H1 H2]%andb_true_iff; rewrite IHf1, IHf2 by assumption; reflexivity).
  destruct args; [reflexivity | discriminate].
Qed.

(** X6. A formula of TFL or of ML holds no term: [sub_term] returns it as it
    is, whatever the term and the generator. *)
Theorem sub_term_propositional (f : obj) (g : G) :
  is_tfl_formula f = true \/ is_ml_formula f = true ->
  sub_term term gen ignore f g = (f, g).
Proof.
  intros H. apply sub_term_identity, ml_formula_no_occurrence.
  destruct H as [H|H]; [|assumption].
  clear g. induction f using obj_ind'; simpl in *; try discriminate; try reflexivity; auto.
  all: apply andb_true_iff in H as [H1 H2]; rewrite IHf1, IHf2 by assumption; reflexivity.
Qed.

(** X7. [sub_term] turns a formula of FOL into a formula of FOL: it rewrites
    below predicates and equalities only. *)
Theorem sub_term_preserves_fol (f : obj) (g : G) :
  is_fol_formula f = true ->
  is_fol_formula (fst (sub_term term gen ignore f g)) = true.
Proof.
  revert g. induction f using obj_ind'; simpl; intros g Hf; try discriminate;
    try reflexivity.
  all: try (specialize (IHf g Hf); destruct (sub_term term gen ignore f g);
            exact IHf).
  all: try (apply andb_true_iff in Hf as [H1 H2];
            specialize (IHf1 g H1);
            destruct (sub_term term gen ignore f1 g) as [a' g1];
            specialize (IHf2 g1 H2);
            destruct (sub_term term gen ignore f2 g1) as [b' g2];
            simpl in *; rewrite IHf1, IHf2; reflexivity).
  - destruct ((fix sub_args (ts : list obj) (g : G) {struct ts} := _) args g).
    reflexivity.
  - destruct (sub_term term gen ignore f1 g) as [a' g1].
    destruct (sub_term term gen ignore f2 g1) as [b' g2]. reflexivity.
  - destruct (obj_eqb f1 term || ignore f1); simpl; [assumption|].
    specialize (IHf2 g Hf). destruct (sub_term term gen ignore f2 g). exact IHf2.
  - destruct (obj_eqb f1 term || ignore f1); simpl; [assumption|].
    specialize (IHf2 g Hf). destruct (sub_term term gen ignore f2 g). exact IHf2.
Qed.
End SubTermMore.

Section SubTermMoreWitnesses.
Import Syntax.


Lemma sub_term_propositional_witness :
  sub_term (Func "a" []) (fun n : nat => (Var "x", S n)) (fun _ => false)
    (Box (Imp (Pred "A" []) Bot)) 0
  = (Box (Imp (Pred "A" []) Bot), 0).
Proof.
  apply (sub_term_propositional (Func "a" []) (fun n : nat => (Var "x", S n))
           (fun _ => false) (Box (Imp (Pred "A" []) Bot)) 0).
  right. reflexivity.
Defined.

Lemma sub_term_preserves_fol_witness :
  is_fol_formula
    (fst (sub_term (Func "a" []) (fun n : nat => (Var "x", S n)) (fun _ => false)
            (Exists (Var "y") (Eq (Func "a" []) (Var "y"))) 0)) = true.
Proof.
  apply (sub_term_preserves_fol (Func "a" []) (fun n : nat => (Var "x", S n))
           (fun _ => false) (Exists (Var "y") (Eq (Func "a" []) (Var "y"))) 0).
  reflexivity.
Defined.
End SubTermMoreWitnesses.

(** ** More on unification *)

Section UnifyMore.
Import Syntax Unify.

Lemma _unify_S fuel self other s mv :
  _unify (S fuel) self other s mv =
    let unify_all :=
      fix unify_all (ts : list (obj * obj)) (s : store) (mv : list nat)
          {struct ts} : result (bool * store * list nat) :=
        match ts with
        | [] => Ok (true, s, mv)
        | (t1, t2) :: ts' => and_then (_unify fuel t1 t2 s mv) (unify_all ts')
        end in
    match self with
    | Metavar i =>
        match s !! i with
        | None => Raise AttributeError
        | Some m =>
            if domain_rejects m other then Ok (false, s, mv)
            else match value m with
                 | None =>
                     Ok (true, <[i := set_value m (Some other)]> s, mv ++ [i])
                 | Some v => _unify fuel v other s mv
                 end
        end
    | BoxMarker => Raise AttributeError
    | _ =>
        match other with
        | Metavar _ => _unify fuel other self s mv
        | _ =>
            match self, other with
            | Bot, Bot => Ok (true, s, mv)
            | Not a, Not b => _unify fuel a b s mv
            | Box a, Box b => _unify fuel a b s mv
            | Dia a, Dia b => _unify fuel a b s mv
            | And a1 a2, And b1 b2
            | Or a1 a2, Or b1 b2
            | Imp a1 a2, Imp b1 b2
            | Iff a1 a2, Iff b1 b2
            | Eq a1 a2, Eq b1 b2
            | Forall a1 a2, Forall b1 b2
            | Exists a1 a2, Exists b1 b2 =>
                and_then (_unify fuel a1 b1 s mv)
                         (fun s1 mv1 => _unify fuel a2 b2 s1 mv1)
            | Func n xs, Func n' ys
            | Pred n xs, Pred n' ys =>
                if String.eqb n n' && Nat.eqb (length xs) (length ys)
                then unify_all (combine xs ys) s mv
                else Ok (false, s, mv)
            | Var n, Var n' => Ok (String.eqb n n', s, mv)
            | _, _ => Ok (false, s, mv)
            end
        end
    end.
Proof. reflexivity. Qed.

Lemma args_eqb_length_neq xs ys : length xs <> length ys -> args_eqb xs ys = false.
Proof.
  revert ys. induction xs as [|a xs IHa]; intros [|b bs] El;
    try reflexivity; simpl in El; [lia|].
  rewrite args_eqb_unfold. rewrite IHa by lia. apply andb_false_r.
Qed.

Lemma unify_all_ground fuel s mv xs :
  List.Forall (fun a => forall b, metavar_free a = true -> unifiable a = true ->
                 metavar_free b = true -> height a <= fuel ->
                 _unify fuel a b s mv = Ok (obj_eqb a b, s, mv)) xs ->
  forallb metavar_free xs = true -> forallb unifiable xs = true ->
  fold_right (fun t n => Nat.max (height t) n) 0 xs <= fuel ->
  forall ys, forallb metavar_free ys = true -> length xs = length ys ->
  (fix unify_all (ts : list (obj * obj)) (s : store) (mv : list nat)
       {struct ts} : result (bool * store * list nat) :=
     match ts with
     | [] => Ok (true, s, mv)
     | (t1, t2) :: ts' => and_then (_unify fuel t1 t2 s mv) (unify_all ts')
     end) (combine xs ys) s mv = Ok (args_eqb xs ys, s, mv).
Proof.
  induction 1 as [|x xs Hx _ IH]; intros Hm Hu Hh [|y ys] Hmy Hl;
    try discriminate; [reflexivity|].
  simpl in Hm, Hu, Hh, Hmy, Hl.
  apply andb_true_iff in Hm as [Hm1 Hm2]. apply andb_true_iff in Hu as [Hu1 Hu2].
  apply andb_true_iff in Hmy as [Hmy1 Hmy2].
  simpl combine. cbv beta iota. rewrite Hx by (auto; lia).
  rewrite args_eqb_unfold. destruct (obj_eqb x y); simpl; [|reflexivity].
  apply IH; auto; lia.
Qed.

Lemma _unify_ground fuel : forall self other s mv,
  metavar_free self = true -> unifiable self = true ->
  metavar_free other = true -> height self <= fuel ->
  _unify fuel self other s mv = Ok (obj_eqb self other, s, mv).
Proof.
  induction fuel as [|fuel IH]; intros self other s mv Hm Hu Ho Hh.
  { destruct self; simpl in Hh; lia. }
  rewrite _unify_S. cbv zeta.
  destruct self; simpl in Hm, Hu, Hh; try discriminate;
    destruct other; simpl in Ho; try discriminate; try reflexivity;
    repeat match goal with
    | H : _ && _ = true |- _ => apply andb_true_iff in H; destruct H
    end;
    try (rewrite IH by (auto; lia); reflexivity);
    try (rewrite IH by (auto; lia); simpl;
         destruct (obj_eqb self1 other1); simpl; [apply IH; auto; lia | reflexivity]).
  - change (obj_eqb (Func name args) (Func name0 args0))
      with (String.eqb name name0 && args_eqb args args0).
    destruct (String.eqb name name0); [|reflexivity]. cbn [andb].
    destruct (Nat.eqb (length args) (length args0)) eqn:El.
    + apply Nat.eqb_eq in El. apply unify_all_ground; auto; try lia.
      apply List.Forall_forall. intros; apply IH; auto.
    + apply Nat.eqb_neq in El. rewrite args_eqb_length_neq by assumption.
      reflexivity.
  - change (obj_eqb (Pred name args) (Pred name0 args0))
      with (String.eqb name name0 && args_eqb args args0).
    destruct (String.eqb name name0); [|reflexivity]. cbn [andb].
    destruct (Nat.eqb (length args) (length args0)) eqn:El.
    + apply Nat.eqb_eq in El. apply unify_all_ground; auto; try lia.
      apply List.Forall_forall. intros; apply IH; auto.
    + apply Nat.eqb_neq in El. rewrite args_eqb_length_neq by assumption.
      reflexivity.
Qed.

(** X8. On objects without metavariables [unify] is the comparison [==]: it
    answers whether the two are equal and leaves the store of
    metavariables and the trail as they are. The pattern must have the
    method at every node ([BoxMarker] has none) and the recursion limit must
    allow for its depth. *)
Theorem unify_without_metavars (fuel : nat) (self other : obj) (s : store)
    (trail : list nat) :
  is_Formula self = true -> unifiable self = true ->
  metavar_free self = true -> metavar_free other = true ->
  height self <= fuel ->
  unify fuel self other s trail = Ok (obj_eqb self other, s, trail).
Proof.
  intros HF Hu Hm Ho Hh. unfold unify. rewrite HF, _unify_ground by assumption.
  destruct (obj_eqb self other); [rewrite app_nil_r|]; reflexivity.
Qed.



End UnifyMore.

Section UnifyMoreWitnesses.
Import Syntax Unify.

Lemma unify_without_metavars_witness :
  unify 3 (And (Pred "A" []) (Pred "B" [])) (And (Pred "A" []) (Pred "C" []))
    two_unbound [7]
  = Ok (false, two_unbound, [7]).
Proof.
  apply (unify_without_metavars 3 (And (Pred "A" []) (Pred "B" []))
           (And (Pred "A" []) (Pred "C" [])) two_unbound [7]);
    try reflexivity. simpl. lia.
Defined.

End UnifyMoreWitnesses.

Section ProofObjectFacts.
Import Syntax Prover.
Local Open Scope prover_scope.

Lemma bind_Ok {A B} (m : M A) (k : A -> M B) st a st1 :
  m st = (Ok a, st1) -> bind m k st = k a st1.
Proof. unfold bind. intros ->. reflexivity. Qed.

Lemma bind_Raise {A B} (m : M A) (k : A -> M B) st e st1 :
  m st = (Raise e, st1) -> bind m k st = (Raise e, st1).
Proof. unfold bind. intros ->. reflexivity. Qed.

Lemma bind_inv {A B} (m : M A) (k : A -> M B) st r st' :
  bind m k st = (r, st') ->
  (exists a st1, m st = (Ok a, st1) /\ k a st1 = (r, st'))
  \/ (exists e, m st = (Raise e, st') /\ r = Raise e).
Proof.
  unfold bind. destruct (m st) as [[a|e] st1]; intros H.
  - left. eauto.
  - right. injection H as <- <-. eauto.
Qed.

Lemma get_proof_Some pid p st : proofs st !! pid = Some p -> get_proof pid st = (Ok p, st).
Proof. unfold get_proof. intros ->. reflexivity. Qed.

Lemma get_list_Some l xs st : lists st !! l = Some xs -> get_list l st = (Ok xs, st).
Proof. unfold get_list. intros ->. reflexivity. Qed.

Lemma pop_reiteration_cases (pid : nat) (p : _Proof) (xs : list elem) (st : state) :
  proofs st !! pid = Some p ->
  lists st !! seq p = Some xs ->
  match last xs with
  | None => pop_reiteration pid st = (Raise IndexError, st)
  | Some (ERef q) => pop_reiteration pid st = (Ok q, st)
  | Some (ELine ln) =>
      if String.eqb (rule ln) "R" then
        exists st',
          pop_reiteration pid st
            = (match citations ln with c :: _ => Ok c | [] => Raise IndexError end, st')
          /\ lists st' = <[seq p := removelast xs]> (lists st)
          /\ proofs st'
             = <[pid := mk_Proof (seq p) (goal p) (formulas p) (assumptions p)
                          (line_count p - 1)%Z (ip_count p)]> (proofs st)
          /\ xs = removelast xs ++ [ELine ln]
          /\ count st' = count st /\ next st' = next st /\ dicts st' = dicts st
      else pop_reiteration pid st = (Ok (line_id ln), st)
  end.
Proof.
  intros Hp Hl. unfold pop_reiteration.
  rewrite (bind_Ok _ _ _ _ _ (get_proof_Some _ _ _ Hp)).
  rewrite (bind_Ok _ _ _ _ _ (get_list_Some _ _ _ Hl)).
  destruct (last xs) as [[ln|q]|] eqn:El; try reflexivity.
  destruct (String.eqb (rule ln) "R"); [|reflexivity].
  eexists. split.
  - unfold bind, put_list, put_proof, ret, raise. simpl.
    destruct (citations ln); reflexivity.
  - simpl. repeat split.
    apply last_Some in El as [l' ->]. rewrite removelast_last. reflexivity.
Qed.


Lemma first_some_Some {A B} (f : A -> option B) xs b :
  first_some f xs = Some b -> exists x, In x xs /\ f x = Some b.
Proof.
  induction xs as [|x xs IH]; simpl; [discriminate|].
  destruct (f x) eqn:E.
  - intros [= <-]. eauto.
  - intros H. destruct (IH H) as (y & Hy & Hf). eauto.
Qed.

Lemma In_lines_of ln xs : In ln (lines_of xs) <-> In (ELine ln) xs.
Proof.
  unfold lines_of. rewrite in_flat_map. split.
  - intros ([l|q] & Hx & Hl); simpl in Hl; [|contradiction].
    destruct Hl as [->|[]]. assumption.
  - intros H. exists (ELine ln). simpl. auto.
Qed.

Lemma line_with_Some f xs ln :
  line_with f xs = Some ln -> In ln (lines_of xs) /\ formula ln = f.
Proof.
  unfold line_with. intros H. apply first_some_Some in H as ([l|q] & Hx & Hf);
    [|discriminate].
  destruct (obj_eqb (formula l) f) eqn:E; [|discriminate].
  injection Hf as <-. split; [apply In_lines_of; assumption | apply obj_eqb_true; assumption].
Qed.


Lemma add_line_spec pid p xs f r c st :
  proofs st !! pid = Some p -> lists st !! seq p = Some xs ->
  add_line pid f r c st
  = (Ok true, after_add_line st pid p xs (mk_Line (S (count st)) f r c)).
Proof.
  intros Hp Hl. unfold add_line, new_line, add, add1, bind, new_id, get_proof,
    put_proof, get_list, put_list, ret. simpl. rewrite Hp. simpl. rewrite Hl.
  reflexivity.
Qed.


Ltac sweep_start Hp Hl :=
  rewrite (bind_Ok _ _ _ _ _ (get_proof_Some _ _ _ Hp));
  rewrite (bind_Ok _ _ _ _ _ (get_list_Some _ _ _ Hl)).

Lemma Eliminator_X_step prover p xs st :
  proofs st !! proof prover = Some p -> lists st !! seq p = Some xs ->
  Eliminator_X prover st = (Ok false, st)
  \/ exists o,
       justified xs (mk_Line (S (count st)) (goal p) "X" [line_id o])
       /\ Eliminator_X prover st
          = (Ok true, after_add_line st (proof prover) p xs
                        (mk_Line (S (count st)) (goal p) "X" [line_id o])).
Proof.
  intros Hp Hl. unfold Eliminator_X. sweep_start Hp Hl.
  destruct (first_some _ xs) as [o|] eqn:E; [right | left; reflexivity].
  apply first_some_Some in E as ([l|q] & Hx & Hf); [|discriminate].
  destruct (formula l) eqn:Ef; try discriminate. injection Hf as <-.
  exists l. split; [|apply add_line_spec; eassumption].
  apply justified_X; [apply In_lines_of|]; assumption.
Qed.

Lemma Eliminator_NotE_step : sweep_step Eliminator_NotE.
Proof.
  intros prover p xs st Hp Hl. unfold Eliminator_NotE. sweep_start Hp Hl.
  destruct (first_some _ xs) as [[o o2]|] eqn:E; [right | left; reflexivity].
  apply first_some_Some in E as ([l|q] & Hx & Hf); [|discriminate].
  destruct (formula l) eqn:Ef; try discriminate.
  destruct (line_with _ xs) as [l2|] eqn:E2; [|discriminate].
  injection Hf as <- <-. apply line_with_Some in E2 as [H2 H2'].
  eexists _, _, _. split; [|split; [|apply add_line_spec; eassumption]].
  - eapply justified_NotE; [apply In_lines_of| | |]; eassumption.
  - reflexivity.
Qed.

Lemma Eliminator_AndE_step : sweep_step Eliminator_AndE.
Proof.
  intros prover p xs st Hp Hl. unfold Eliminator_AndE. sweep_start Hp Hl.
  destruct (first_some _ xs) as [[o f]|] eqn:E; [right | left; reflexivity].
  apply first_some_Some in E as ([l|q] & Hx & Hf); [|discriminate].
  destruct (formula l) as [ | | a b | | | | | | | | | | | | | ] eqn:Ef; try discriminate.
  assert (Hcase : o = l /\ (f = a \/ f = b)).
  { destruct (negb (derived p a)); [injection Hf as <- <-; auto|].
    destruct (negb (derived p b)); [injection Hf as <- <-; auto|].
    discriminate. }
  destruct Hcase as [-> Hcase].
  eexists _, _, _. split; [|split; [|apply add_line_spec; eassumption]].
  - eapply justified_AndE; [apply In_lines_of; eassumption | eassumption | assumption].
  - reflexivity.
Qed.

Lemma Eliminator_ImpE_step : sweep_step Eliminator_ImpE.
Proof.
  intros prover p xs st Hp Hl. unfold Eliminator_ImpE. sweep_start Hp Hl.
  destruct (first_some _ xs) as [[[o o2] f]|] eqn:E; [right | left; reflexivity].
  apply first_some_Some in E as ([l|q] & Hx & Hf); [|discriminate].
  destruct (formula l) as [  |  |  |  | a b |  |  |  |  |  |  |  |  |  |  |  ] eqn:Ef; try discriminate.
  destruct (derived p b); [discriminate|].
  destruct (line_with a xs) as [l2|] eqn:E2; [|discriminate].
  injection Hf as <- <- <-. apply line_with_Some in E2 as [H2 H2'].
  eexists _, _, _. split; [|split; [|apply add_line_spec; eassumption]].
  - eapply justified_ImpE; [apply In_lines_of| | |]; eassumption.
  - reflexivity.
Qed.

Lemma Eliminator_IffE_step : sweep_step Eliminator_IffE.
Proof.
  intros prover p xs st Hp Hl. unfold Eliminator_IffE. sweep_start Hp Hl.
  destruct (first_some _ xs) as [[[o o2] f]|] eqn:E; [right | left; reflexivity].
  apply first_some_Some in E as ([l|q] & Hx & Hf); [|discriminate].
  destruct (formula l) as [  |  |  |  |  | a b |  |  |  |  |  |  |  |  |  |  ] eqn:Ef; try discriminate.
  cbv zeta in Hf.
  assert (Hcase : o = l /\ In o2 (lines_of xs)
                  /\ ((formula o2 = a /\ f = b) \/ (formula o2 = b /\ f = a))).
  { destruct (derived p a && negb (derived p b)).
    - destruct (line_with a xs) as [l2|] eqn:E2.
      + injection Hf as <- <- <-. apply line_with_Some in E2 as [H2 H2']. auto.
      + destruct (derived p b && negb (derived p a)); [|discriminate].
        destruct (line_with b xs) as [l2|] eqn:E3; [|discriminate].
        injection Hf as <- <- <-. apply line_with_Some in E3 as [H2 H2']. auto.
    - destruct (derived p b && negb (derived p a)); [|discriminate].
      destruct (line_with b xs) as [l2|] eqn:E3; [|discriminate].
      injection Hf as <- <- <-. apply line_with_Some in E3 as [H2 H2']. auto. }
  destruct Hcase as (-> & H2 & Hcase).
  eexists _, _, _. split; [|split; [|apply add_line_spec; eassumption]].
  - eapply justified_IffE; [apply In_lines_of; eassumption | eassumption
                            | eassumption | reflexivity | assumption].
  - reflexivity.
Qed.

(** [Eliminator.R] answers [True] at once when the proof ends with its
    goal; otherwise it reiterates the first line that holds the goal. *)
Lemma Eliminator_R_step prover p xs st :
  proofs st !! proof prover = Some p -> lists st !! seq p = Some xs ->
  (Eliminator_R prover st = (Ok true, st) /\ ends_with (goal p) xs)
  \/ Eliminator_R prover st = (Ok false, st)
  \/ exists o,
       In o (lines_of xs) /\ formula o = goal p
       /\ Eliminator_R prover st
          = (Ok true, after_add_line st (proof prover) p xs
                        (mk_Line (S (count st)) (goal p) "R" [line_id o])).
Proof.
  intros Hp Hl. unfold Eliminator_R. sweep_start Hp Hl.
  destruct (match last xs with
            | Some (ELine end_) =>
                obj_eqb (formula end_) (goal p) && negb (is_assumption end_)
            | _ => false
            end) eqn:Eend.
  - left. split; [reflexivity|].
    destruct (last xs) as [[ln|q]|] eqn:Elast; try discriminate.
    apply andb_true_iff in Eend as [E1 E2].
    exists ln. split; [assumption|]. split; [apply obj_eqb_true; assumption|].
    apply negb_true_iff. assumption.
  - right. destruct (line_with (goal p) xs) as [o|] eqn:E; [right | left; reflexivity].
    apply line_with_Some in E as [H1 H2]. exists o. rewrite <- H2 at 2.
    split; [assumption|]. split; [assumption|]. apply add_line_spec; assumption.
Qed.


Lemma swept_nil st pid p xs :
  proofs st !! pid = Some p -> lists st !! seq p = Some xs ->
  swept st pid p xs [] st.
Proof.
  intros Hp Hl. exists p. rewrite !insert_id by (rewrite ?app_nil_r; assumption).
  simpl. repeat split; lia.
Qed.

Lemma swept_cons st pid p xs ln new st' :
  line_id ln = S (count st) ->
  swept (after_add_line st pid p xs ln) pid (with_line p ln) (xs ++ [ELine ln]) new st' ->
  swept st pid p xs (ln :: new) st'.
Proof.
  intros Hid (p' & H1 & H2 & H3 & H4 & H5 & H6 & H7 & H8). exists p'. simpl in *.
  rewrite H1, H5, insert_insert_eq, insert_insert_eq, <- app_assoc, H7, H8, Hid.
  repeat split; try assumption; lia.
Qed.

(** X12. [Eliminator.elim] appends justified lines to the sequence of the
    proof, each derived by its rule from lines that precede it and numbered
    with the next id, and touches nothing else: no other proof object, no
    other list, not the memo table. When it answers [True] the proof ends
    with its goal, on a line that is not an assumption. *)
Theorem Eliminator_elim_sound (fuel : nat) (prover : Prover) (p : _Proof)
    (xs : list elem) (st st' : state) (b : bool) :
  proofs st !! proof prover = Some p ->
  lists st !! seq p = Some xs ->
  Eliminator_elim fuel prover st = (Ok b, st') ->
  exists new,
    derivation xs new
    /\ swept st (proof prover) p xs new st'
    /\ (b = true -> ends_with (goal p) (xs ++ List.map ELine new)).
Proof.
  revert p xs st. induction fuel as [|fuel IH]; intros p xs st Hp Hl H;
    [discriminate|].
  assert (Hnext : forall f r c,
    justified xs (mk_Line (S (count st)) f r c) ->
    Eliminator_elim fuel prover
      (after_add_line st (proof prover) p xs (mk_Line (S (count st)) f r c))
      = (Ok b, st') ->
    exists new, derivation xs new /\ swept st (proof prover) p xs new st'
                /\ (b = true -> ends_with (goal p) (xs ++ List.map ELine new))).
  { intros f r c Hj Hrec.
    apply IH with (p := with_line p (mk_Line (S (count st)) f r c))
                  (xs := xs ++ [ELine (mk_Line (S (count st)) f r c)]) in Hrec;
      [|apply lookup_insert_eq|simpl; apply lookup_insert_eq].
    destruct Hrec as (new & Hd & Hs & He).
    exists (mk_Line (S (count st)) f r c :: new). split; [split; assumption|].
    split; [apply swept_cons; [reflexivity | assumption]|].
    simpl. rewrite <- app_assoc in He. exact He. }
  assert (Hstop : forall f r c,
    justified xs (mk_Line (S (count st)) f r c) -> f = goal p ->
    is_assumption (mk_Line (S (count st)) f r c) = false ->
    (Ok b, st') = (Ok true, after_add_line st (proof prover) p xs
                              (mk_Line (S (count st)) f r c)) ->
    exists new, derivation xs new /\ swept st (proof prover) p xs new st'
                /\ (b = true -> ends_with (goal p) (xs ++ List.map ELine new))).
  { intros f r c Hj Hf Ha [= -> ->].
    exists [mk_Line (S (count st)) f r c]. split; [split; [assumption | exact I]|].
    split.
    - apply swept_cons; [reflexivity|]. apply swept_nil; simpl; apply lookup_insert_eq.
    - intros _. eexists. split; [apply last_snoc|]. split; assumption. }
  simpl in H.
  destruct (Eliminator_R_step prover p xs st Hp Hl)
    as [[HR He]|[HR|(o & Ho & Hfo & HR)]];
    rewrite (bind_Ok _ _ _ _ _ HR) in H.
  { injection H as <- <-. exists []. rewrite app_nil_r.
    split; [exact I|]. split; [apply swept_nil; assumption | auto]. }
  2:{ assert (Hj : justified xs (mk_Line (S (count st)) (goal p) "R" [line_id o])).
      { rewrite <- Hfo. apply justified_R. assumption. }
      eapply Hstop; [exact Hj | reflexivity | reflexivity | symmetry; exact H]. }
  destruct (Eliminator_X_step prover p xs st Hp Hl) as [HX|(o & Hj & HX)];
    rewrite (bind_Ok _ _ _ _ _ HX) in H.
  2:{ eapply Hstop; [exact Hj | reflexivity | reflexivity | symmetry; exact H]. }
  destruct (Eliminator_NotE_step prover p xs st Hp Hl) as [HN|(f & r & c & Hj & Ha & HN)];
    rewrite (bind_Ok _ _ _ _ _ HN) in H; [|eapply Hnext; eassumption].
  destruct (Eliminator_AndE_step prover p xs st Hp Hl) as [HA|(f & r & c & Hj & Ha & HA)];
    rewrite (bind_Ok _ _ _ _ _ HA) in H; [|eapply Hnext; eassumption].
  destruct (Eliminator_ImpE_step prover p xs st Hp Hl) as [HI|(f & r & c & Hj & Ha & HI)];
    rewrite (bind_Ok _ _ _ _ _ HI) in H; [|eapply Hnext; eassumption].
  destruct (Eliminator_IffE_step prover p xs st Hp Hl) as [HF|(f & r & c & Hj & Ha & HF)];
    rewrite (bind_Ok _ _ _ _ _ HF) in H; [|eapply Hnext; eassumption].
  injection H as <- <-. exists []. rewrite app_nil_r.
  split; [exact I|]. split; [apply swept_nil; assumption | discriminate].
Qed.
End ProofObjectFacts.

Section BranchFacts.
Import Syntax Prover.
Local Open Scope prover_scope.

Lemma min_by_cost_first (best : nat * cost) (rest : list (nat * cost)) :
  exists k c,
    (best :: rest) !! k = Some (min_by_cost best rest, c)
    /\ (forall b, In b (best :: rest) -> ~ cost_lt (snd b) c)
    /\ (forall j b, j < k -> (best :: rest) !! j = Some b -> cost_lt c (snd b)).
Proof.
  revert best. induction rest as [|b rest IH]; intros best.
  - exists 0, (snd best). simpl. destruct best as [i [c1 c2]]. split; [reflexivity|].
    split; [|intros; lia].
    intros b [<-|[]]. unfold cost_lt. simpl. lia.
  - simpl min_by_cost. destruct (cost_ltb (snd b) (snd best)) eqn:E.
    + apply cost_ltb_spec in E. destruct (IH b) as (k & c & Hk & Hmin & Hfirst).
      exists (S k), c. split; [exact Hk|].
      assert (Hb : ~ cost_lt (snd b) c) by (apply Hmin; left; reflexivity).
      destruct best as [i0 [x1 x2]], b as [i1 [y1 y2]], c as [c1 c2].
      unfold cost_lt in *. simpl in *. split.
      * intros b' [<-|Hb']; [simpl; lia | apply Hmin; assumption].
      * intros [|j] b' Hj Hb'; simpl in Hb'.
        -- injection Hb' as <-. simpl. lia.
        -- apply (Hfirst j); [lia | assumption].
    + assert (E' : ~ cost_lt (snd b) (snd best)).
      { rewrite <- cost_ltb_spec, E. discriminate. }
      destruct (IH best) as (k & c & Hk & Hmin & Hfirst).
      assert (Hbest : ~ cost_lt (snd best) c) by (apply Hmin; left; reflexivity).
      destruct k as [|k].
      * exists 0, c. split; [exact Hk|]. split; [|intros; lia].
        assert (Hc : c = snd best).
        { simpl in Hk. injection Hk as Hk. rewrite Hk. reflexivity. }
        intros b' [<-|[<-|Hb']].
        -- assumption.
        -- subst c. destruct best as [i0 [x1 x2]], b as [i1 [y1 y2]].
           unfold cost_lt in *. simpl in *. lia.
        -- apply Hmin. right. assumption.
      * exists (S (S k)), c. split; [exact Hk|].
        assert (H0 : cost_lt c (snd best)) by (apply (Hfirst 0); [lia | reflexivity]).
        split.
        -- intros b' [<-|[<-|Hb']].
           ++ assumption.
           ++ destruct best as [i0 [x1 x2]], b as [i1 [y1 y2]], c as [c1 c2].
              unfold cost_lt in *. simpl in *. lia.
           ++ apply Hmin. right. assumption.
        -- intros [|[|j]] b' Hj Hb'; simpl in Hb'.
           ++ injection Hb' as <-. assumption.
           ++ injection Hb' as <-.
              destruct best as [i0 [x1 x2]], b as [i1 [y1 y2]], c as [c1 c2].
              unfold cost_lt in *. simpl in *. lia.
           ++ apply (Hfirst (S j)); [lia | exact Hb'].
Qed.

Lemma get_proof_inv pid st p st' :
  get_proof pid st = (Ok p, st') -> proofs st !! pid = Some p /\ st' = st.
Proof.
  unfold get_proof. destruct (proofs st !! pid); intros [= <- <-]. auto.
Qed.

Lemma get_list_inv l st xs st' :
  get_list l st = (Ok xs, st') -> lists st !! l = Some xs /\ st' = st.
Proof.
  unfold get_list. destruct (lists st !! l); intros [= <- <-]. auto.
Qed.

Lemma branch_costs_spec bs : forall st r st',
  branch_costs bs st = (r, st') ->
  st' = st
  /\ forall cs, r = Ok cs ->
       Forall2 (fun b c => fst c = b /\ exists pb, proofs st !! b = Some pb
                                        /\ snd c = proof_cost pb) bs cs.
Proof.
  induction bs as [|b bs IH]; intros st r st' H; simpl in H.
  - injection H as <- <-. split; [reflexivity|]. intros cs [= <-]. constructor.
  - unfold bind at 1 in H. unfold get_proof in H.
    destruct (proofs st !! b) as [pb|] eqn:Hb.
    + unfold bind in H. destruct (branch_costs bs st) as [[cs'|e] st1] eqn:E;
        destruct (IH _ _ _ E) as [-> Hcs]; injection H as <- <-;
        (split; [reflexivity|]); intros cs [= <-].
      constructor; [simpl; eauto | apply Hcs; reflexivity].
    + injection H as <- <-. split; [reflexivity|]. discriminate.
Qed.

(** X13. [_Proof.commit_best_branch]. Without branches it answers [False] and
    changes nothing. Otherwise, when it returns, it answers [True] and has
    chosen the first branch of least [(ip_count, line_count)] in the
    lexicographic order: the proof then holds the very list object of that
    branch (the two share it from then on) and its cached sets and counts
    are recomputed from that list; the goal of the proof, the lists and
    all the other proof objects stay as they were. *)
Theorem commit_best_branch_spec (pid : nat) (branches : list nat) (st st' : state)
    (b : bool) :
  commit_best_branch pid branches st = (Ok b, st') ->
  match branches with
  | [] => b = false /\ st' = st
  | _ :: _ =>
      b = true
      /\ exists k best pb p xs lc ic,
           branches !! k = Some best
           /\ proofs st !! best = Some pb
           /\ (forall b' pb', In b' branches -> proofs st !! b' = Some pb' ->
                 ~ cost_lt (proof_cost pb') (proof_cost pb))
           /\ (forall j b' pb', j < k -> branches !! j = Some b' ->
                 proofs st !! b' = Some pb' ->
                 cost_lt (proof_cost pb) (proof_cost pb'))
           /\ proofs st !! pid = Some p
           /\ lists st !! seq pb = Some xs
           /\ sum_counts (proofs st) xs = Some (lc, ic)
           /\ proofs st'
              = <[pid := mk_Proof (seq pb) (goal p) (line_formulas xs)
                           (assumption_formulas xs) lc ic]> (proofs st)
           /\ lists st' = lists st /\ dicts st' = dicts st
           /\ count st' = count st /\ next st' = next st
  end.
Proof.
  unfold commit_best_branch. intros H.
  apply bind_inv in H as [(cs & st1 & Hc & H)|(e & _ & [=])].
  apply branch_costs_spec in Hc as [-> Hcs]. specialize (Hcs cs eq_refl).
  destruct branches as [|b0 bs].
  - inversion Hcs; subst. injection H as <- <-. split; reflexivity.
  - destruct cs as [|c cs]; [inversion Hcs|].
    apply bind_inv in H as [(pb & st1 & Hb & H)|(e & _ & [=])].
    apply get_proof_inv in Hb as [Hbest ->].
    apply bind_inv in H as [([] & st2 & Hs & H)|(e & _ & [=])].
    injection H as <- <-. split; [reflexivity|].
    unfold set_seq_shared in Hs.
    apply bind_inv in Hs as [(p & st3 & Hp & Hs)|(e & _ & [=])].
    apply get_proof_inv in Hp as [Hpid ->].
    apply bind_inv in Hs as [(xs & st3 & Hx & Hs)|(e & _ & [=])].
    apply get_list_inv in Hx as [Hxs ->].
    apply bind_inv in Hs as [(pn & st3 & Hi & Hs)|(e & _ & [=])].
    unfold init in Hi. destruct (sum_counts (proofs st) xs) as [[lc ic]|] eqn:Hsum;
      [|discriminate].
    injection Hi as <- <-. unfold put_proof in Hs. injection Hs as <-.
    destruct (min_by_cost_first c cs) as (k & cbest & Hk & Hmin & Hfirst).
    assert (Hlook : forall j x, (c :: cs) !! j = Some x ->
              (b0 :: bs) !! j = Some (fst x)
              /\ exists px, proofs st !! fst x = Some px /\ snd x = proof_cost px).
    { intros j x Hj.
      destruct (Forall2_lookup_r _ _ _ j x Hcs Hj) as (bj & Hbj & <- & Hx). auto. }
    destruct (Hlook _ _ Hk) as (Hk1 & px & Hpx & Hcx). simpl in Hpx, Hcx, Hk1.
    rewrite Hbest in Hpx. injection Hpx as <-. subst cbest.
    exists k, (min_by_cost c cs), pb, p, xs, lc, ic.
    repeat split; try assumption; try reflexivity.
    + intros b' pb' Hin Hb'. apply list_elem_of_In, list_elem_of_lookup in Hin as [j Hj].
      destruct (Forall2_lookup_l _ _ _ j b' Hcs Hj) as (cj & Hcj & Hfj & pj & Hpj & Hc).
      rewrite Hb' in Hpj. injection Hpj as <-. rewrite <- Hc.
      apply Hmin. apply list_elem_of_In. eapply list_elem_of_lookup_2. exact Hcj.
    + intros j b' pb' Hj Hbj Hb'.
      destruct (Forall2_lookup_l _ _ _ j b' Hcs Hbj) as (cj & Hcj & Hfj & pj & Hpj & Hc).
      rewrite Hb' in Hpj. injection Hpj as <-. rewrite <- Hc.
      apply (Hfirst j); assumption.
Qed.
End BranchFacts.

Section CacheFacts.
Import Syntax Prover.
Local Open Scope prover_scope.

Lemma sum_counts_app ps xs ys :
  sum_counts ps (xs ++ ys)
  = match sum_counts ps xs, sum_counts ps ys with
    | Some (l1, i1), Some (l2, i2) => Some (l1 + l2, i1 + i2)%Z
    | _, _ => None
    end.
Proof.
  induction xs as [|[ln|q] xs IH]; simpl.
  - destruct (sum_counts ps ys) as [[l2 i2]|]; reflexivity.
  - rewrite IH. destruct (sum_counts ps xs) as [[l1 i1]|]; [|reflexivity].
    destruct (sum_counts ps ys) as [[l2 i2]|]; [|reflexivity].
    f_equal. f_equal; lia.
  - rewrite IH. destruct (ps !! q); [|reflexivity].
    destruct (sum_counts ps xs) as [[l1 i1]|]; [|reflexivity].
    destruct (sum_counts ps ys) as [[l2 i2]|]; [|reflexivity].
    f_equal. f_equal; lia.
Qed.

Lemma sum_counts_insert ps pid p' xs :
  ~ In (ERef pid) xs -> sum_counts (<[pid := p']> ps) xs = sum_counts ps xs.
Proof.
  induction xs as [|[ln|q] xs IH]; simpl; intros Hn; [reflexivity| |].
  - rewrite IH by tauto. reflexivity.
  - rewrite IH by tauto. rewrite lookup_insert_ne by (intros ->; tauto). reflexivity.
Qed.

(** X14. [_Proof.add] keeps the cached fields right: when the sets and counts
    of the proof are those that [init] computes from its sequence, they
    are, after [add] has appended an object, those that [init] computes from
    the longer sequence. The proof must not occur in its own sequence. *)
Theorem add_keeps_cache (pid : nat) (p : _Proof) (xs : list elem) (e : elem)
    (st st' : state) :
  proofs st !! pid = Some p ->
  lists st !! seq p = Some xs ->
  cached st p xs ->
  ~ In (ERef pid) (xs ++ [e]) ->
  add1 pid e st = (Ok tt, st') ->
  exists p',
    proofs st' !! pid = Some p'
    /\ seq p' = seq p /\ goal p' = goal p
    /\ lists st' !! seq p' = Some (xs ++ [e])
    /\ cached st' p' (xs ++ [e]).
Proof.
  intros Hp Hl (Hsum & Hf & Ha) Hself H. unfold add1 in H.
  rewrite (bind_Ok _ _ _ _ _ (get_proof_Some _ _ _ Hp)) in H.
  assert (Hn : ~ In (ERef pid) xs) by (rewrite in_app_iff in Hself; tauto).
  destruct e as [ln|q].
  - unfold bind, ret, put_proof, get_list, put_list in H. simpl in H.
    rewrite Hl in H. injection H as <-. simpl.
    exists (with_line p ln). rewrite !lookup_insert_eq.
    split; [reflexivity|]. split; [reflexivity|]. split; [reflexivity|].
    split; [reflexivity|]. unfold cached. simpl. split; [|split].
    + rewrite sum_counts_insert, sum_counts_app, Hsum by assumption. simpl.
      destruct (String.eqb (rule ln) "IP"); f_equal; f_equal; lia.
    + intros f. unfold line_formulas. rewrite flat_map_app, in_app_iff. simpl.
      specialize (Hf f). unfold line_formulas in Hf. tauto.
    + intros f. unfold assumption_formulas. rewrite flat_map_app, in_app_iff. simpl.
      specialize (Ha f). unfold assumption_formulas in Ha.
      destruct (is_assumption ln); simpl; tauto.
  - assert (Hq : q <> pid).
    { intros ->. apply Hself. apply in_app_iff. right. left. reflexivity. }
    unfold bind at 1 in H. unfold bind at 1 in H. unfold get_proof at 1 in H.
    destruct (proofs st !! q) as [sub|] eqn:Hsub; [|discriminate].
    unfold bind, ret, put_proof, get_list, put_list in H. simpl in H.
    rewrite Hl in H. injection H as <-. simpl.
    exists (mk_Proof (seq p) (goal p) (formulas p) (assumptions p)
              (line_count p + line_count sub)%Z (ip_count p + ip_count sub)%Z).
    rewrite !lookup_insert_eq.
    split; [reflexivity|]. split; [reflexivity|]. split; [reflexivity|].
    split; [reflexivity|]. unfold cached. simpl. split; [|split].
    + rewrite sum_counts_insert by assumption.
      rewrite sum_counts_app, Hsum. simpl.
      rewrite Hsub. f_equal. f_equal; lia.
    + intros f. unfold line_formulas. rewrite flat_map_app, in_app_iff. simpl.
      specialize (Hf f). unfold line_formulas in Hf. tauto.
    + intros f. unfold assumption_formulas. rewrite flat_map_app, in_app_iff. simpl.
      specialize (Ha f). unfold assumption_formulas in Ha. tauto.
Qed.

(** X15. [_Proof.copy] builds a new proof object on a new list: the copy has
    the next id, the goal and the contents of the original, and its cached
    fields are computed afresh. Nothing that existed is touched, and what is
    appended to the copy afterwards does not reach the original. *)
Theorem proof_copy_independent (pid : nat) (p : _Proof) (xs : list elem)
    (st st1 : state) (b : nat) :
  proofs st !! pid = Some p ->
  lists st !! seq p = Some xs ->
  pid <= count st -> seq p < next st ->
  proof_copy pid st = (Ok b, st1) ->
  b = S (count st)
  /\ (exists pb, proofs st1 = <[b := pb]> (proofs st)
                 /\ seq pb = next st /\ goal pb = goal p /\ cached st pb xs)
  /\ lists st1 = <[next st := xs]> (lists st)
  /\ dicts st1 = dicts st
  /\ forall e st2, add1 b e st1 = (Ok tt, st2) ->
        proofs st2 !! pid = Some p
        /\ lists st2 !! seq p = Some xs
        /\ lists st2 !! next st = Some (xs ++ [e]).
Proof.
  intros Hp Hl Hpid Hseq H. unfold proof_copy in H.
  rewrite (bind_Ok _ _ _ _ _ (get_proof_Some _ _ _ Hp)) in H.
  rewrite (bind_Ok _ _ _ _ _ (get_list_Some _ _ _ Hl)) in H.
  unfold new_proof, bind, alloc_list, init, new_id, put_proof, ret in H. simpl in H.
  destruct (sum_counts (proofs st) xs) as [[lc ic]|] eqn:Hsum; [|discriminate].
  injection H as <- <-. simpl. split; [reflexivity|].
  split.
  { eexists. split; [reflexivity|]. simpl. split; [reflexivity|].
    split; [reflexivity|]. split; [assumption|]. split; intros f; reflexivity. }
  split; [reflexivity|]. split; [reflexivity|].
  intros e st2 H2. unfold add1 in H2.
  unfold bind at 1 in H2. unfold get_proof at 1 in H2. simpl in H2.
  rewrite lookup_insert_eq in H2.
  apply bind_inv in H2 as [(p' & st3 & Hp' & H2)|(e' & _ & [=])].
  assert (Hst3 : proofs st3 = <[S (count st) := mk_Proof (next st) (goal p)
                   (line_formulas xs) (assumption_formulas xs) lc ic]> (proofs st)
                 /\ lists st3 = <[next st := xs]> (lists st)).
  { destruct e as [ln|q]; [injection Hp' as <- <-; split; reflexivity|].
    apply bind_inv in Hp' as [(sub & st4 & Hs & Hp')|(e' & _ & [=])].
    apply get_proof_inv in Hs as [_ ->]. injection Hp' as <- <-.
    split; reflexivity. }
  destruct Hst3 as [Hps Hls].
  unfold bind, put_proof, get_list, put_list in H2. simpl in H2.
  rewrite Hls, lookup_insert_eq in H2. injection H2 as <-. simpl.
  rewrite Hps. rewrite !lookup_insert_ne by lia. rewrite lookup_insert_eq. auto.
Qed.

(** X16. [find_subproof] reads and changes nothing. The subproof it returns
    stands in the sequence, has more or fewer than one object, begins with a
    line that holds the assumption and ends with a line that holds the
    conclusion. *)
Theorem find_subproof_sound (xs : list elem) (a c : obj) (st st' : state)
    (r : result (option nat)) :
  find_subproof xs a c st = (r, st') ->
  st' = st
  /\ forall q, r = Ok (Some q) ->
       In (ERef q) xs
       /\ exists pq s first_ last_ rest,
            proofs st !! q = Some pq
            /\ lists st !! seq pq = Some s
            /\ s = ELine first_ :: rest
            /\ last s = Some (ELine last_)
            /\ length s <> 1
            /\ formula first_ = a /\ formula last_ = c.
Proof.
  induction xs as [|[ln|q0] xs IH]; simpl; intros H.
  - injection H as <- <-. split; [reflexivity|]. discriminate.
  - destruct (IH H) as [-> Hq]. split; [reflexivity|].
    intros q Hr. destruct (Hq q Hr) as [Hin Hex]. auto.
  - unfold get_seq in H.
    apply bind_inv in H as [(s & st1 & Hs & H)|(e & Hs & ->)].
    2:{ apply bind_inv in Hs as [(pq & st1 & Hpq & Hs)|(e' & Hs & [=])].
        - apply get_proof_inv in Hpq as [_ ->]. unfold get_list in Hs.
          destruct (lists st !! seq pq); [discriminate|]. injection Hs as <- <-.
          split; [reflexivity | discriminate].
        - unfold get_proof in Hs. destruct (proofs st !! q0); [discriminate|].
          injection Hs as <- <-. split; [reflexivity | discriminate]. }
    apply bind_inv in Hs as [(pq & st2 & Hpq & Hs)|(e' & _ & [=])].
    apply get_proof_inv in Hpq as [Hpq ->]. apply get_list_inv in Hs as [Hs ->].
    assert (Hcont : find_subproof xs a c st = (r, st') ->
      st' = st
      /\ forall q, r = Ok (Some q) ->
           (ERef q0 = ERef q \/ In (ERef q) xs)
           /\ exists pq s first_ last_ rest,
                proofs st !! q = Some pq
                /\ lists st !! seq pq = Some s
                /\ s = ELine first_ :: rest
                /\ last s = Some (ELine last_)
                /\ length s <> 1
                /\ formula first_ = a /\ formula last_ = c).
    { intros H'. destruct (IH H') as [-> Hq]. split; [reflexivity|].
      intros q Hr. destruct (Hq q Hr) as [Hin Hex]. auto. }
    destruct (Nat.eqb (length s) 1) eqn:Elen; [auto|].
    apply Nat.eqb_neq in Elen.
    destruct s as [|start s']; [injection H as <- <-; split; [reflexivity|discriminate]|].
    destruct (last (start :: s')) as [[end_|qe]|] eqn:Elast.
    + destruct start as [start|qs];
        [|injection H as <- <-; split; [reflexivity|discriminate]].
      destruct (obj_eqb (formula start) a && obj_eqb (formula end_) c) eqn:Eq; [|auto].
      injection H as <- <-. split; [reflexivity|]. intros q [= <-].
      split; [left; reflexivity|].
      apply andb_true_iff in Eq as [E1 E2].
      apply obj_eqb_true in E1. apply obj_eqb_true in E2.
      exists pq, (ELine start :: s'), start, end_, s'. auto 10.
    + auto.
    + injection H as <- <-. split; [reflexivity|discriminate].
Qed.

(** X11. [Eliminator.R] followed by [pop_reiteration]: when the proof does not
    end with its goal yet and R succeeds, popping the reiteration gives the
    sequence and the line count back and returns the id of a line of the
    sequence that holds the goal, the one that R had cited. *)
Theorem R_then_pop_reiteration (prover : Prover) (p : _Proof) (xs : list elem)
    (st st1 : state) :
  proofs st !! proof prover = Some p ->
  lists st !! seq p = Some xs ->
  ~ ends_with (goal p) xs ->
  Eliminator_R prover st = (Ok true, st1) ->
  exists o st2 p2,
    pop_reiteration (proof prover) st1 = (Ok (line_id o), st2)
    /\ In (ELine o) xs /\ formula o = goal p
    /\ lists st2 = <[seq p := xs]> (lists st)
    /\ proofs st2 = <[proof prover := p2]> (proofs st)
    /\ seq p2 = seq p /\ goal p2 = goal p
    /\ line_count p2 = line_count p /\ ip_count p2 = ip_count p.
Proof.
  intros Hp Hl Hne HR.
  destruct (Eliminator_R_step prover p xs st Hp Hl)
    as [[_ He]|[HR'|(o & Ho & Hfo & HR')]]; [contradiction | congruence |].
  rewrite HR' in HR. injection HR as <-.
  pose proof (pop_reiteration_cases (proof prover)
                (with_line p (mk_Line (S (count st)) (goal p) "R" [line_id o]))
                (xs ++ [ELine (mk_Line (S (count st)) (goal p) "R" [line_id o])])
                (after_add_line st (proof prover) p xs
                   (mk_Line (S (count st)) (goal p) "R" [line_id o]))) as Hpop.
  simpl in Hpop. rewrite !lookup_insert_eq in Hpop.
  specialize (Hpop eq_refl eq_refl). rewrite last_snoc in Hpop. simpl in Hpop.
  destruct Hpop as (st2 & Hpop & Hls & Hps & _).
  exists o, st2. eexists. split; [exact Hpop|].
  split; [apply In_lines_of; assumption|]. split; [assumption|].
  rewrite Hls, Hps, removelast_last, !insert_insert_eq. simpl.
  split; [reflexivity|]. split; [reflexivity|]. simpl. repeat split. lia.
Qed.
End CacheFacts.

Section ProverWitnesses.
Import Syntax Prover.


(** From [A] and [A → B] the sweep derives [B] by →E and stops. *)
Lemma Eliminator_elim_sound_witness :
  exists new st',
    Eliminator_elim 5 (mk_Prover 3 1 None) (mp_state B) = (Ok true, st')
    /\ derivation mp_seq new /\ ends_with B (mp_seq ++ List.map ELine new).
Proof.
  destruct (Eliminator_elim 5 (mk_Prover 3 1 None) (mp_state B)) as [[[]|e] st'] eqn:E.
  - destruct (Eliminator_elim_sound 5 (mk_Prover 3 1 None) (mp_proof B) mp_seq
                (mp_state B) st' true eq_refl eq_refl E) as (new & Hd & _ & He).
    exists new, st'. auto.
  - vm_compute in E. discriminate.
  - vm_compute in E. discriminate.
Defined.

Lemma R_then_pop_reiteration_witness :
  exists st1 st2,
    Eliminator_R (mk_Prover 3 1 None) (mp_state A) = (Ok true, st1)
    /\ pop_reiteration 3 st1 = (Ok 1, st2)
    /\ lists st2 !! 0 = Some mp_seq.
Proof.
  destruct (Eliminator_R (mk_Prover 3 1 None) (mp_state A)) as [[[]|e] st1] eqn:E.
  - assert (Hne : ~ ends_with (goal (mp_proof A)) mp_seq).
    { intros (ln & Hl & Hf & _). simpl in Hl. injection Hl as <-. discriminate Hf. }
    destruct (R_then_pop_reiteration (mk_Prover 3 1 None) (mp_proof A) mp_seq
                (mp_state A) st1 eq_refl eq_refl Hne E)
      as (o & st2 & p2 & Hpop & Hin & Hf & Hls & _).
    exists st1, st2. split; [reflexivity|].
    assert (Ho : line_id o = 1).
    { simpl in Hin. destruct Hin as [[= <-]|[[= <-]|[]]]; [reflexivity | discriminate Hf]. }
    rewrite Ho in Hpop. split; [exact Hpop|]. rewrite Hls. apply lookup_insert_eq.
  - vm_compute in E. discriminate.
  - vm_compute in E. discriminate.
Defined.

(** Of the branches 5, 4 and 3, with the costs (0, 3), (0, 2) and (0, 2),
    the second is committed. *)
Lemma commit_best_branch_spec_witness :
  exists st' p',
    commit_best_branch 6 [5; 4; 3] branch_state = (Ok true, st')
    /\ proofs st' !! 6 = Some p' /\ seq p' = 1.
Proof.
  destruct (commit_best_branch 6 [5; 4; 3] branch_state) as [[b|e] st'] eqn:E.
  - destruct (commit_best_branch_spec 6 [5; 4; 3] branch_state st' b E)
      as (-> & k & best & pb & p & xs & lc & ic & Hk & Hb & Hmin & Hfirst & Hp & Hx
          & Hs & Hps & _).
    exists st'. eexists. split; [reflexivity|]. rewrite Hps, lookup_insert_eq.
    split; [reflexivity|]. simpl.
    destruct k as [|[|[|k]]]; simpl in Hk; try discriminate; injection Hk as <-;
      vm_compute in Hb; injection Hb as <-; try reflexivity; exfalso.
    + apply (Hmin 4 (mk_Proof 1 (Imp A A) [] [] 2 0)); [simpl; tauto | reflexivity|].
      right. simpl. lia.
    + assert (H := Hfirst 1 4 (mk_Proof 1 (Imp A A) [] [] 2 0)
                     ltac:(lia) eq_refl eq_refl).
      unfold cost_lt in H. simpl in H. lia.
  - vm_compute in E. discriminate.
Defined.

Lemma add_keeps_cache_witness :
  exists st' p',
    add1 3 (ELine (mk_Line 4 B "→E" [2; 1])) (mp_state B) = (Ok tt, st')
    /\ proofs st' !! 3 = Some p'
    /\ cached st' p' (mp_seq ++ [ELine (mk_Line 4 B "→E" [2; 1])]).
Proof.
  destruct (add1 3 (ELine (mk_Line 4 B "→E" [2; 1])) (mp_state B))
    as [[[]|e] st'] eqn:E; [|vm_compute in E; discriminate].
  assert (Hc : cached (mp_state B) (mp_proof B) mp_seq).
  { split; [reflexivity|]. split; intros f; reflexivity. }
  assert (Hn : ~ In (ERef 3) (mp_seq ++ [ELine (mk_Line 4 B "→E" [2; 1])])).
  { simpl. intros [H|[H|[H|[]]]]; discriminate H. }
  destruct (add_keeps_cache 3 (mp_proof B) mp_seq _ (mp_state B) st'
              eq_refl eq_refl Hc Hn E) as (p' & Hp' & _ & _ & _ & Hc').
  exists st', p'. auto.
Defined.

Lemma proof_copy_independent_witness :
  exists st1,
    proof_copy 3 (mp_state B) = (Ok 4, st1)
    /\ lists st1 = <[2 := mp_seq]> (lists (mp_state B)).
Proof.
  destruct (proof_copy 3 (mp_state B)) as [[b|e] st1] eqn:E;
    [|vm_compute in E; discriminate].
  destruct (proof_copy_independent 3 (mp_proof B) mp_seq (mp_state B) st1 b
              eq_refl eq_refl ltac:(simpl; lia) ltac:(simpl; lia) E)
    as (-> & _ & Hl & _).
  exists st1. split; [reflexivity | exact Hl].
Defined.

Lemma find_subproof_sound_witness :
  find_subproof [ERef 3] A A branch_state = (Ok (Some 3), branch_state).
Proof.
  destruct (find_subproof [ERef 3] A A branch_state) as [r st'] eqn:E.
  destruct (find_subproof_sound [ERef 3] A A branch_state st' r E) as [-> _].
  vm_compute in E. injection E as <-. reflexivity.
Defined.
End ProverWitnesses.

Section QuietFacts.
Import Syntax Prover.
Local Open Scope prover_scope.
Variable D : option Q.

Lemma clock_ok_refl st : clock_ok D st st.
Proof. unfold clock_ok. destruct D; repeat split; lia. Qed.

Lemma clock_ok_trans st1 st2 st3 :
  clock_ok D st1 st2 -> clock_ok D st2 st3 -> clock_ok D st1 st3.
Proof. unfold clock_ok. destruct D; intros (?&?&?&?) (?&?&?&?); repeat split; lia. Qed.

Lemma quiet_ret {A} (a : A) : quiet D (ret a).
Proof.
  intros st r st' [= <- <-]. split; [apply clock_ok_refl | discriminate].
Qed.

Lemma quiet_raise {A} e : search_exn D e = true -> quiet D (@raise A e).
Proof.
  intros He st r st' [= <- <-]. split; [apply clock_ok_refl|]. intros e' [= <-]. exact He.
Qed.

Lemma quiet_bind {A B} (m : M A) (k : A -> M B) :
  quiet D m -> (forall a, quiet D (k a)) -> quiet D (bind m k).
Proof.
  intros Hm Hk st r st' H. unfold bind in H.
  destruct (m st) as [[a|e] st1] eqn:E; destruct (Hm _ _ _ E) as [H1 H2].
  - destruct (Hk a _ _ _ H) as [H3 H4]. split; [eapply clock_ok_trans; eassumption | exact H4].
  - injection H as <- <-. split; [exact H1|]. intros e' [= <-]. apply H2. reflexivity.
Qed.

(** A computation that reads the state and may fail with one of the
    exceptions of the interpreter. *)
Lemma quiet_reader {A} (m : M A) :
  (forall st, snd (m st) = st
              /\ forall e, fst (m st) = Raise e -> search_exn D e = true) ->
  quiet D m.
Proof.
  intros Hm st r st' H. destruct (Hm st) as [H1 H2]. rewrite H in H1, H2. simpl in *.
  subst st'. split; [apply clock_ok_refl | exact H2].
Qed.

Lemma quiet_get_proof pid : quiet D (get_proof pid).
Proof.
  apply quiet_reader. intros st. unfold get_proof. destruct (proofs st !! pid); simpl;
    (split; [reflexivity|]); intros e [= <-]; reflexivity.
Qed.

Lemma quiet_get_list l : quiet D (get_list l).
Proof.
  apply quiet_reader. intros st. unfold get_list. destruct (lists st !! l); simpl;
    (split; [reflexivity|]); intros e [= <-]; reflexivity.
Qed.

Lemma quiet_get_dict d : quiet D (get_dict d).
Proof.
  apply quiet_reader. intros st. unfold get_dict. destruct (dicts st !! d); simpl;
    (split; [reflexivity|]); intros e [= <-]; reflexivity.
Qed.

Lemma quiet_init l g xs : quiet D (init l g xs).
Proof.
  apply quiet_reader. intros st. unfold init.
  destruct (sum_counts (proofs st) xs) as [[lc ic]|]; simpl;
    (split; [reflexivity|]); intros e [= <-]; reflexivity.
Qed.

Ltac quiet_write :=
  intros st r st' [= <- <-]; split;
  [unfold clock_ok; simpl; destruct D; repeat split; lia | discriminate].

Lemma quiet_new_id : quiet D new_id.
Proof. quiet_write. Qed.
Lemma quiet_put_proof pid p : quiet D (put_proof pid p).
Proof. quiet_write. Qed.
Lemma quiet_put_list l xs : quiet D (put_list l xs).
Proof. quiet_write. Qed.
Lemma quiet_alloc_list xs : quiet D (alloc_list xs).
Proof. quiet_write. Qed.
Lemma quiet_put_dict d m : quiet D (put_dict d m).
Proof. quiet_write. Qed.
Lemma quiet_alloc_dict m : quiet D (alloc_dict m).
Proof. quiet_write. Qed.

Lemma quiet_seq_eqb_read (f : state -> option bool) :
  quiet D (fun st => match f st with
                     | Some r => (Ok (negb r), st)
                     | None => (Raise RecursionError, st)
                     end).
Proof.
  apply quiet_reader. intros st. destruct (f st); simpl;
    (split; [reflexivity|]); intros e [= <-]; reflexivity.
Qed.
End QuietFacts.

Create HintDb quiet.
#[local] Hint Resolve quiet_ret quiet_get_proof quiet_get_list quiet_get_dict
  quiet_init quiet_new_id quiet_put_proof quiet_put_list quiet_alloc_list
  quiet_put_dict quiet_alloc_dict : quiet.

Ltac quiet_step :=
  match goal with
  | |- Prover.quiet _ (Prover.ret _) => apply quiet_ret
  | |- Prover.quiet _ (Prover.raise _) => apply quiet_raise; reflexivity
  | |- Prover.quiet _ (Prover.bind _ _) => apply quiet_bind; [|intros]
  | |- Prover.quiet _ ((fun _ => _) _) => cbv beta
  | |- Prover.quiet _ (match ?x with _ => _ end) => destruct x
  | |- Prover.quiet _ _ => solve [eauto with quiet]
  end.
Ltac quiet_auto := repeat quiet_step.

Section QuietProofObjects.
Import Syntax Prover.
Local Open Scope prover_scope.
Variable D : option Q.

Lemma quiet_get_seq pid : quiet D (get_seq pid).
Proof. unfold get_seq. quiet_auto. Qed.
Lemma quiet_new_line f r c : quiet D (new_line f r c).
Proof. unfold new_line. quiet_auto. Qed.
Lemma quiet_new_proof xs g : quiet D (new_proof xs g).
Proof. unfold new_proof. quiet_auto. Qed.
Hint Resolve quiet_get_seq quiet_new_line quiet_new_proof : quiet.
Lemma quiet_proof_copy pid : quiet D (proof_copy pid).
Proof. unfold proof_copy. quiet_auto. Qed.
Lemma quiet_set_seq_shared pid l : quiet D (set_seq_shared pid l).
Proof. unfold set_seq_shared. quiet_auto. Qed.
Hint Resolve quiet_proof_copy quiet_set_seq_shared : quiet.
Lemma quiet_set_seq_fresh pid xs : quiet D (set_seq_fresh pid xs).
Proof. unfold set_seq_fresh. quiet_auto. Qed.
Lemma quiet_add1 pid e : quiet D (add1 pid e).
Proof. unfold add1. quiet_auto. Qed.
Hint Resolve quiet_set_seq_fresh quiet_add1 : quiet.
Lemma quiet_add pid es : quiet D (add pid es).
Proof. induction es; simpl; quiet_auto. Qed.
Hint Resolve quiet_add : quiet.
Lemma quiet_add_line pid f r c : quiet D (add_line pid f r c).
Proof. unfold add_line. quiet_auto. Qed.
Lemma quiet_pop_reiteration pid : quiet D (pop_reiteration pid).
Proof. unfold pop_reiteration. quiet_auto. Qed.
Lemma quiet_branch_costs bs : quiet D (branch_costs bs).
Proof. induction bs; simpl; quiet_auto. Qed.
Hint Resolve quiet_add_line quiet_pop_reiteration quiet_branch_costs : quiet.
Lemma quiet_commit_best_branch pid bs : quiet D (commit_best_branch pid bs).
Proof. unfold commit_best_branch. quiet_auto. Qed.
Lemma quiet_find_subproof xs a c : quiet D (find_subproof xs a c).
Proof. induction xs as [|[ln|q] xs IH]; simpl; quiet_auto. Qed.
Lemma quiet_seq_differs b pid : quiet D (seq_differs b pid).
Proof.
  unfold seq_differs. quiet_auto.
  apply (quiet_seq_eqb_read D (fun st => seq_eqb (S (count st)) st a a0)).
Qed.
Lemma quiet_enter_state self : quiet D (_enter_state self).
Proof. unfold _enter_state. quiet_auto. Qed.
Hint Resolve quiet_commit_best_branch quiet_find_subproof quiet_seq_differs
  quiet_enter_state : quiet.
Lemma quiet_Eliminator_R p : quiet D (Eliminator_R p).
Proof. unfold Eliminator_R. quiet_auto. Qed.
Lemma quiet_Eliminator_X p : quiet D (Eliminator_X p).
Proof. unfold Eliminator_X. quiet_auto. Qed.
Lemma quiet_Eliminator_NotE p : quiet D (Eliminator_NotE p).
Proof. unfold Eliminator_NotE. quiet_auto. Qed.
Lemma quiet_Eliminator_AndE p : quiet D (Eliminator_AndE p).
Proof. unfold Eliminator_AndE. quiet_auto. Qed.
Lemma quiet_Eliminator_ImpE p : quiet D (Eliminator_ImpE p).
Proof. unfold Eliminator_ImpE. quiet_auto. Qed.
Lemma quiet_Eliminator_IffE p : quiet D (Eliminator_IffE p).
Proof. unfold Eliminator_IffE. quiet_auto. Qed.
Hint Resolve quiet_Eliminator_R quiet_Eliminator_X quiet_Eliminator_NotE
  quiet_Eliminator_AndE quiet_Eliminator_ImpE quiet_Eliminator_IffE : quiet.
Lemma quiet_Eliminator_elim fuel p : quiet D (Eliminator_elim fuel p).
Proof. induction fuel as [|fuel IH]; simpl; quiet_auto. Qed.
End QuietProofObjects.

#[local] Hint Resolve quiet_ret quiet_get_proof quiet_get_list quiet_get_dict
  quiet_init quiet_new_id quiet_put_proof quiet_put_list quiet_alloc_list
  quiet_put_dict quiet_alloc_dict quiet_get_seq quiet_new_line quiet_new_proof
  quiet_proof_copy quiet_set_seq_shared quiet_set_seq_fresh quiet_add1 quiet_add
  quiet_add_line quiet_pop_reiteration quiet_branch_costs
  quiet_commit_best_branch quiet_find_subproof quiet_seq_differs
  quiet_enter_state quiet_Eliminator_elim : quiet.

Section QuietSearch.
Import Syntax Prover.
Local Open Scope prover_scope.
Variable is_valid : list obj -> obj -> bool.
Variable rec : bool -> Prover -> M bool.
Variable D : option Q.
Hypothesis Hrec : forall c pr, deadline pr = D -> quiet D (rec c pr).

Lemma quiet_collect {A} c (body : A -> M (option nat)) xs :
  (forall x, quiet D (body x)) -> forall bs, quiet D (collect c body xs bs).
Proof. intros Hb. induction xs as [|x xs IH]; intros bs; simpl; quiet_auto. Qed.

Lemma quiet_first_success {A} (body : A -> M bool) xs :
  (forall x, quiet D (body x)) -> quiet D (first_success body xs).
Proof. intros Hb. induction xs as [|x xs IH]; simpl; quiet_auto. Qed.

Ltac quiet_search :=
  repeat first
    [ quiet_step
    | match goal with
      | |- Prover.quiet _ (rec _ _) => apply Hrec; simpl; assumption
      | |- Prover.quiet _ (Prover.collect _ _ _ _) => apply quiet_collect; intros
      | |- Prover.quiet _ (Prover.first_success _ _) =>
          apply quiet_first_success; intros
      end ].

Lemma quiet_len_seq pid : quiet D (len_seq pid).
Proof. unfold len_seq. quiet_search. Qed.
Lemma quiet_shared_seen p : quiet D (shared_seen p).
Proof. unfold shared_seen. quiet_search. Qed.
Lemma quiet_copied_seen p : quiet D (copied_seen p).
Proof. unfold copied_seen. quiet_search. Qed.
Hint Resolve quiet_len_seq quiet_shared_seen quiet_copied_seen : quiet.

Lemma quiet_prove_under prover c xs a g mk_seen base :
  deadline prover = D -> quiet D mk_seen -> quiet D base ->
  quiet D (prove_under rec prover c xs a g mk_seen base).
Proof using Type*. intros HD Hs Hb. unfold prove_under. quiet_search. Qed.

Lemma quiet_prove_branch prover c xs g mk_seen :
  deadline prover = D -> quiet D mk_seen ->
  quiet D (prove_branch rec prover c xs g mk_seen).
Proof using Type*. intros HD Hs. unfold prove_branch. quiet_search. Qed.

Lemma quiet_progress prover b : quiet D (progress prover b).
Proof using Type*. unfold progress. quiet_search. Qed.
Hint Resolve quiet_progress : quiet.

Ltac quiet_rule :=
  repeat first
    [ quiet_step
    | match goal with
      | |- Prover.quiet _ (rec _ _) => apply Hrec; simpl; assumption
      | |- Prover.quiet _ (Prover.collect _ _ _ _) => apply quiet_collect; intros
      | |- Prover.quiet _ (Prover.first_success _ _) =>
          apply quiet_first_success; intros
      | |- Prover.quiet _ (Prover.prove_under _ _ _ _ _ _ _ _) =>
          apply quiet_prove_under; [assumption | |]
      | |- Prover.quiet _ (Prover.prove_branch _ _ _ _ _ _) =>
          apply quiet_prove_branch; [assumption |]
      end ].

Lemma quiet_intro_by_subproof prover c a g r :
  deadline prover = D -> quiet D (intro_by_subproof rec prover c a g r).
Proof using Type*. intros HD. unfold intro_by_subproof. quiet_rule. Qed.

Lemma quiet_two_subproofs prover c a1 g1 a2 g2 mk_seen2 :
  deadline prover = D -> quiet D mk_seen2 ->
  quiet D (two_subproofs rec prover c a1 g1 a2 g2 mk_seen2).
Proof using Type*. intros HD Hs. unfold two_subproofs. quiet_rule. Qed.

Lemma quiet_Introducer_intro prover c :
  deadline prover = D -> quiet D (Introducer_intro is_valid rec prover c).
Proof using Type*.
  intros HD.
  unfold Introducer_intro, Introducer_NotI, Introducer_AndI, Introducer_OrI,
    Introducer_ImpI, Introducer_IffI.
  quiet_rule; try (apply quiet_intro_by_subproof; assumption);
    try (apply quiet_two_subproofs; [assumption|]; quiet_rule).
Qed.

Lemma quiet_Introducer_IP prover c :
  deadline prover = D -> quiet D (Introducer_IP is_valid rec prover c).
Proof using Type*.
  intros HD. unfold Introducer_IP. quiet_rule. apply quiet_intro_by_subproof; assumption.
Qed.

Lemma quiet_Eliminator_OrE prover c :
  deadline prover = D -> quiet D (Eliminator_OrE rec prover c).
Proof using Type*.
  intros HD. unfold Eliminator_OrE.
  quiet_rule; try (apply quiet_two_subproofs; [assumption|]; quiet_rule).
Qed.

Lemma quiet_Eliminator_NotE_force prover c :
  deadline prover = D -> quiet D (Eliminator_NotE_force is_valid rec prover c).
Proof using Type*. intros HD. unfold Eliminator_NotE_force. quiet_rule. Qed.

Lemma quiet_Eliminator_ImpE_force prover c :
  deadline prover = D -> quiet D (Eliminator_ImpE_force is_valid rec prover c).
Proof using Type*. intros HD. unfold Eliminator_ImpE_force. quiet_rule. Qed.

Lemma quiet_Eliminator_IffE_force prover c :
  deadline prover = D -> quiet D (Eliminator_IffE_force is_valid rec prover c).
Proof using Type*. intros HD. unfold Eliminator_IffE_force. quiet_rule. Qed.
End QuietSearch.

#[local] Hint Resolve quiet_ret quiet_get_proof quiet_get_list quiet_get_dict
  quiet_init quiet_new_id quiet_put_proof quiet_put_list quiet_alloc_list
  quiet_put_dict quiet_alloc_dict quiet_get_seq quiet_new_line quiet_new_proof
  quiet_proof_copy quiet_set_seq_shared quiet_set_seq_fresh quiet_add1 quiet_add
  quiet_add_line quiet_pop_reiteration quiet_branch_costs
  quiet_commit_best_branch quiet_find_subproof quiet_seq_differs
  quiet_enter_state quiet_Eliminator_elim : quiet.

Section QuietProve.
Import Syntax Prover.
Local Open Scope prover_scope.
Variable is_valid : list obj -> obj -> bool.
Variable clock : nat -> Q.

(** The entry of [Prover.prove]: the deadline is looked at before
    anything else. *)
Lemma quiet_entry self :
  quiet (deadline self) (note_entry ;; check_deadline clock self).
Proof.
  intros st r st' H. unfold bind, note_entry, check_deadline, monotonic in H.
  unfold clock_ok. destruct (deadline self) as [d|]; simpl in H.
  - unfold bind in H. simpl in H. destruct (Qle_bool d _); injection H as <- <-; simpl;
      (split; [repeat split; lia|]); [|discriminate].
    intros e [= <-]. reflexivity.
  - injection H as <- <-. simpl. split; [repeat split; lia | discriminate].
Qed.

Lemma quiet_bind_assoc D {A B C} (m : M A) (n : M B) (k : B -> M C) :
  quiet D (bind m (fun _ => n)) -> (forall b, quiet D (k b)) ->
  quiet D (bind m (fun _ => bind n k)).
Proof.
  intros Hmn Hk st r st' H.
  apply (quiet_bind D (bind m (fun _ => n)) k Hmn Hk st r st').
  unfold bind in *. destruct (m st) as [[a|e] st1]; [|exact H].
  destruct (n st1) as [[b|e] st2]; exact H.
Qed.

Lemma quiet_ext D {A} (m m' : M A) :
  (forall st, m st = m' st) -> quiet D m' -> quiet D m.
Proof. intros E Hm st r st' H. rewrite E in H. exact (Hm st r st' H). Qed.

Lemma quiet_collect_Forall D {A} c (body : A -> M (option nat)) xs :
  List.Forall (fun x => quiet D (body x)) xs ->
  forall bs, quiet D (collect c body xs bs).
Proof.
  induction 1 as [|x xs Hx _ IH]; intros bs; simpl; quiet_auto; auto.
Qed.

Lemma quiet_Prover_prove_body rec steps c self :
  (forall c pr, deadline pr = deadline self -> quiet (deadline self) (rec c pr)) ->
  quiet (deadline self) (Prover_prove_body is_valid clock rec steps c self).
Proof.
  intros Hrec. unfold Prover_prove_body.
  apply quiet_bind_assoc; [apply quiet_entry|]. intros _.
  apply quiet_bind; [apply quiet_enter_state|]. intros ok.
  destruct (negb ok); [apply quiet_ret|].
  apply quiet_bind; [apply quiet_Eliminator_elim|]. intros b.
  destruct b; [apply quiet_ret|].
  apply quiet_bind; [apply quiet_Introducer_intro; [exact Hrec | reflexivity]|].
  intros b. destruct b; [apply quiet_ret|].
  apply quiet_bind; [|intros; apply quiet_commit_best_branch].
  apply quiet_collect_Forall.
  assert (Hcopy : forall strategy,
    (forall p, deadline p = deadline self -> quiet (deadline self) (strategy p)) ->
    quiet (deadline self) (try_strategy self strategy)).
  { intros strategy Hs.
    apply (quiet_ext _ _
             (b <- proof_copy (proof self) ;;
              r <- strategy (mk_Prover b (seen self) (deadline self)) ;;
              ret (if r then Some b else None))).
    - intros st. unfold try_strategy, Prover_copy, bind, ret.
      destruct (proof_copy (proof self) st) as [[b|e] st1]; reflexivity.
    - quiet_auto. }
  unfold strategies.
  repeat (apply List.Forall_cons; [apply Hcopy; intros p Hp|]); [..|apply List.Forall_nil].
  - apply quiet_bind; [apply quiet_Eliminator_NotE_force; assumption|].
    intros []; [apply Hrec; assumption | apply quiet_ret].
  - apply quiet_bind; [apply quiet_Eliminator_ImpE_force; assumption|].
    intros []; [apply Hrec; assumption | apply quiet_ret].
  - apply quiet_bind; [apply quiet_Eliminator_IffE_force; assumption|].
    intros []; [apply Hrec; assumption | apply quiet_ret].
  - apply quiet_Eliminator_OrE; assumption.
  - apply quiet_Introducer_IP; assumption.
Qed.

Lemma quiet_Prover_prove fuel : forall c self,
  quiet (deadline self) (Prover_prove is_valid clock fuel c self).
Proof.
  induction fuel as [|fuel IH]; intros c self; simpl.
  - apply quiet_raise. reflexivity.
  - apply quiet_Prover_prove_body. intros c' pr <-. apply IH.
Qed.

(** X17. The exceptions of the search. [Prover.prove] raises no [ProverError]:
    what it raises is [TimeoutError], and only when the prover has a
    deadline, or a failure of the interpreter ([AttributeError],
    [IndexError], [RecursionError]). *)
Theorem Prover_prove_exceptions (fuel : nat) (complete : bool) (self : Prover)
    (st st' : state) (e : exn) :
  Prover_prove is_valid clock fuel complete self st = (Raise e, st') ->
  (e = TimeoutError /\ deadline self <> None)
  \/ e = AttributeError \/ e = IndexError \/ e = RecursionError.
Proof.
  intros H. destruct (quiet_Prover_prove fuel complete self st _ st' H) as [_ He].
  specialize (He e eq_refl). destruct e; simpl in He; try discriminate; auto.
  left. split; [reflexivity|]. destruct (deadline self); [discriminate | discriminate].
Qed.

(** X18. The clock of the search. A prover with a deadline reads the clock
    once in every entry of [Prover.prove], its own and those of the provers
    it builds; a prover without deadline never reads it. *)
Theorem Prover_prove_clock (fuel : nat) (complete : bool) (self : Prover)
    (st st' : state) (r : result bool) :
  Prover_prove is_valid clock fuel complete self st = (r, st') ->
  entries st <= entries st'
  /\ match deadline self with
     | Some _ => reads st' - reads st = entries st' - entries st
     | None => reads st' = reads st
     end.
Proof.
  intros H. destruct (quiet_Prover_prove fuel complete self st _ st' H) as [Hc _].
  unfold clock_ok in Hc. destruct (deadline self); split; lia.
Qed.

End QuietProve.

Section ProcessorExceptions.
Import Syntax Prover Processor.

Lemma remove_pass_exn sub m n : forall s idx e,
  (forall ss e, sub ss = Raise e -> processor_exn e) ->
  remove_pass sub m n idx s = Raise e -> processor_exn e.
Proof.
  induction s as [|o s IH]; intros idx e Hsub H; simpl in H; [discriminate|].
  destruct o as [ln|i ss g].
  - destruct (is_assumption ln || Nat.eqb idx (n - 1)).
    + destruct (remove_pass sub m n (S idx) s) eqn:E; [discriminate|].
      injection H as <-. eapply IH; eassumption.
    + destruct (m !! line_id ln); [|injection H as <-; left; reflexivity].
      destruct (remove_pass sub m n (S idx) s) eqn:E; [discriminate|].
      injection H as <-. eapply IH; eassumption.
  - destruct (sub ss) eqn:Es; [|injection H as <-; eapply Hsub; eassumption].
    destruct (remove_pass sub m n (S idx) s) eqn:E; [discriminate|].
    injection H as <-. eapply IH; eassumption.
Qed.

Lemma remove_uncited_exn fuel : forall s m e,
  remove_uncited fuel s m = Raise e -> processor_exn e.
Proof.
  induction fuel as [|fuel IH]; intros s m e H; simpl in H.
  - injection H as <-. right. reflexivity.
  - destruct (remove_pass _ m (length s) 0 s) as [s'|e'] eqn:E.
    + destruct (Nat.eqb (length s') (length s)); [discriminate|]. eapply IH; eassumption.
    + injection H as <-.
      apply (remove_pass_exn (fun ss => remove_uncited fuel ss m) m (length s) s 0 e');
        [|exact E].
      intros ss e0 H0. exact (IH _ _ _ H0).
Qed.

Lemma all_reiterations_exn io cs e :
  all_reiterations io cs = Raise e -> processor_exn e.
Proof.
  induction cs as [|c cs IH]; simpl; [discriminate|].
  destruct (io !! c) as [ln|]; [|intros [= <-]; left; reflexivity].
  destruct (String.eqb (rule ln) "R"); [exact IH | discriminate].
Qed.

Lemma replace_loop_exn io ic n : forall s idx replace cnt e,
  List.Forall (fun o => forall n idx replace cnt e,
                 replace_obj io ic n idx o replace cnt = Raise e -> processor_exn e) s ->
  replace_loop io ic n idx s replace cnt = Raise e -> processor_exn e.
Proof.
  induction s as [|o s IH]; intros idx replace cnt e Hs H; simpl in H; [discriminate|].
  inversion Hs as [|? ? Ho Hs']; subst.
  destruct (replace_obj io ic n idx o replace cnt) as [[[out rp] cnt']|e'] eqn:E.
  - destruct (replace_loop io ic n (S idx) s rp cnt') as [[[r rp'] cnt'']|e'] eqn:E2;
      [discriminate|].
    injection H as <-. eapply IH; eassumption.
  - injection H as <-. eapply Ho; eassumption.
Qed.

Lemma replace_obj_PProof io ic n idx i ss g replace cnt :
  replace_obj io ic n idx (PProof i ss g) replace cnt
  = match replace_loop io ic (length ss) 0 ss replace cnt with
    | Ok (ss', replace, cnt) => Ok ([PProof i ss' g], replace, cnt)
    | Raise e => Raise e
    end.
Proof.
  simpl. generalize (length ss) as k. generalize 0 as j. revert replace cnt.
  induction ss as [|x s IH]; intros replace cnt j k; [reflexivity|]. cbn [replace_loop].
  destruct (replace_obj io ic k j x replace cnt) as [[[out rp] cnt']|e]; [|reflexivity].
  specialize (IH rp cnt' (S j) k).
  destruct (replace_loop io ic k (S j) s rp cnt') as [[[r rp'] cnt'']|e].
  - destruct ((fix loop (idx : nat) (s0 : list pobj) (replace0 : gmap nat _Line)
                  (cnt0 : nat) {struct s0} := _) (S j) s rp cnt') as [[[r0 rp0] cnt0]|e];
      [|discriminate].
    injection IH as -> -> ->. reflexivity.
  - destruct ((fix loop (idx : nat) (s0 : list pobj) (replace0 : gmap nat _Line)
                  (cnt0 : nat) {struct s0} := _) (S j) s rp cnt') as [[[r0 rp0] cnt0]|e0];
      [discriminate|].
    injection IH as ->. reflexivity.
Qed.

Lemma replace_obj_exn io ic o : forall n idx replace cnt e,
  replace_obj io ic n idx o replace cnt = Raise e -> processor_exn e.
Proof.
  induction o as [ln|i ss g IH] using pobj_ind'; intros n idx replace cnt e H.
  - simpl in H. destruct (replace !! line_id ln); [discriminate|].
    destruct (is_assumption ln || Nat.eqb idx (n - 1)); [discriminate|].
    destruct (ic !! line_id ln) as [cs|]; [|injection H as <-; left; reflexivity].
    destruct (all_reiterations io cs) as [[]|e'] eqn:E; try discriminate.
    injection H as <-. eapply all_reiterations_exn; eassumption.
  - rewrite replace_obj_PProof in H.
    destruct (replace_loop io ic (length ss) 0 ss replace cnt) as [[[a b] c]|e'] eqn:E;
      [discriminate|].
    injection H as <-. eapply replace_loop_exn; eassumption.
Qed.

Lemma translate_citations_exn m cs e :
  translate_citations m cs = Raise e -> processor_exn e.
Proof.
  induction cs as [|c cs IH]; simpl; [discriminate|].
  destruct (m !! c); [|intros [= <-]; left; reflexivity].
  destruct (translate_citations m cs); [discriminate | exact IH].
Qed.

Lemma translate_exn : forall s idx m e,
  List.Forall (fun o => forall idx m e,
                 translate_obj o idx m = Raise e -> processor_exn e) s ->
  translate s idx m = Raise e -> processor_exn e.
Proof.
  induction s as [|o s IH]; intros idx m e Hs H; simpl in H; [discriminate|].
  inversion Hs as [|? ? Ho Hs']; subst.
  destruct (translate_obj o idx m) as [[[c idx'] m']|e'] eqn:E.
  - destruct (translate s idx' m') as [[[r i2] m2]|e'] eqn:E2; [discriminate|].
    injection H as <-. eapply IH; eassumption.
  - injection H as <-. eapply Ho; eassumption.
Qed.

Lemma translate_obj_exn o : forall idx m e,
  translate_obj o idx m = Raise e -> processor_exn e.
Proof.
  induction o as [ln|i ss g IH] using pobj_ind'; intros idx m e H; simpl in H.
  - destruct (translate_citations m (citations ln)) eqn:E; [discriminate|].
    injection H as <-. eapply translate_citations_exn; eassumption.
  - change (match translate ss idx m with
            | Raise e => Raise e
            | Ok (sub, _, m) =>
                Ok (Proof sub, idx + count_lines (PProof i ss g),
                    <[i := CiteRange idx (idx + count_lines (PProof i ss g) - 1)]> m)
            end = Raise e) in H.
    destruct (translate ss idx m) as [[[a b] c]|e'] eqn:E; [discriminate|].
    injection H as <-. eapply translate_exn; eassumption.
Qed.

Lemma process_exn fuel s cnt e : process fuel s cnt = Raise e -> processor_exn e.
Proof.
  unfold process. intros H.
  destruct (remove_uncited fuel s (id_to_citers s)) as [s1|e1] eqn:E1;
    [|injection H as <-; eapply remove_uncited_exn; eassumption].
  unfold replace_reiterations in H.
  destruct (replace_loop _ _ (length s1) 0 s1 ∅ cnt) as [[[s2 rp] cnt']|e2] eqn:E2.
  - destruct (translate s2 1 ∅) as [[[c i] m]|e3] eqn:E3; [discriminate|].
    injection H as <-. eapply translate_exn; [|exact E3].
    apply List.Forall_forall. intros o _. apply translate_obj_exn.
  - injection H as <-. eapply replace_loop_exn; [|exact E2].
    apply List.Forall_forall. intros o _. apply replace_obj_exn.
Qed.
End ProcessorExceptions.

#[local] Hint Resolve quiet_ret quiet_get_proof quiet_get_list quiet_get_dict
  quiet_init quiet_new_id quiet_put_proof quiet_put_list quiet_alloc_list
  quiet_put_dict quiet_alloc_dict quiet_get_seq quiet_new_line quiet_new_proof
  : quiet.

Section ProveErrors.
Import Syntax Prover Processor Generate.
Local Open Scope prover_scope.
Context {K : Type}.
Variable countermodel : list obj -> obj -> option (list (K * bool)).
Variable key_ltb : K -> K -> bool.
Variable key_str : K -> string.
Variable is_valid : list obj -> obj -> bool.
Variable clock : nat -> Q.

Lemma quiet_premise_lines D ps : quiet D (premise_lines ps).
Proof. induction ps as [|p ps IH]; simpl; quiet_auto. Qed.

Lemma catch_timeout_quiet d (m : M bool) :
  quiet (Some d) m ->
  forall st r st', catch_timeout m st = (r, st') ->
    clock_ok (Some d) st st' /\ forall e, r = Raise e -> search_exn None e = true.
Proof.
  intros Hm st r st' H. unfold catch_timeout in H.
  destruct (m st) as [[b|e] st1] eqn:E; destruct (Hm _ _ _ E) as [Hc He].
  - injection H as <- <-. split; [exact Hc | discriminate].
  - specialize (He e eq_refl).
    destruct e; injection H as <- <-; (split; [exact Hc|]); intros e' [= <-];
      try discriminate; reflexivity.
Qed.

Lemma quiet_search_deadline fuel c pf sn d :
  quiet (Some d) (Prover_prove is_valid clock fuel c (mk_Prover pf sn (Some d))).
Proof. apply (quiet_Prover_prove is_valid clock fuel c (mk_Prover pf sn (Some d))). Qed.

(** What the first search of [prove] leaves: its exceptions are failures
    of the interpreter, the timeout being absorbed, and when it returns the
    clock was read once for the deadline and once in every entry of
    [Prover.prove]. *)
Lemma first_attempt_quiet fuel premises conclusion timeout st r st1 :
  first_attempt is_valid clock fuel premises conclusion timeout st = (r, st1) ->
  (forall e, r = Raise e -> search_exn None e = true)
  /\ (forall v, r = Ok v -> reads st1 + entries st = reads st + 1 + entries st1)
  /\ entries st <= entries st1.
Proof.
  unfold first_attempt. intros H.
  apply bind_inv in H as [(seq & st2 & H1 & H)|(e & H1 & ->)].
  2:{ destruct (quiet_premise_lines None premises _ _ _ H1) as [(Hr & He & _) Hx].
      split; [intros e' [= <-]; exact (Hx e eq_refl)|]. split; [discriminate | exact He]. }
  destruct (quiet_premise_lines (Some 0%Q) premises _ _ _ H1) as [(Hr1 & He1 & _) _].
  apply bind_inv in H as [(pf & st3 & H2 & H)|(e & H2 & ->)].
  2:{ destruct (quiet_new_proof None _ _ _ _ _ H2) as [(Hr & He & _) Hx].
      split; [intros e' [= <-]; exact (Hx e eq_refl)|]. split; [discriminate | lia]. }
  destruct (quiet_new_proof (Some 0%Q) _ _ _ _ _ H2) as [(Hr2 & He2 & _) _].
  apply bind_inv in H as [(now & st4 & H3 & H)|(e & H3 & ->)]; [|discriminate H3].
  injection H3 as <- <-.
  apply bind_inv in H as [(sn & st5 & H4 & H)|(e & H4 & ->)]; [|discriminate H4].
  injection H4 as <- <-.
  apply bind_inv in H as [(proved & st6 & H5 & H)|(e & H5 & ->)].
  - injection H as <- <-.
    destruct (catch_timeout_quiet _ _ (quiet_search_deadline fuel true _ _ _)
                _ _ _ H5) as [(Hr5 & He5 & _) _].
    simpl in Hr5, He5. split; [discriminate|]. split; [intros _ _; lia | lia].
  - destruct (catch_timeout_quiet _ _ (quiet_search_deadline fuel true _ _ _)
                _ _ _ H5) as [(Hr5 & He5 & _) Hx].
    simpl in Hr5, He5. split; [intros e' [= <-]; exact (Hx e eq_refl)|].
    split; [discriminate | lia].
Qed.

Lemma fallback_quiet fuel seq conclusion :
  quiet None (fallback is_valid clock fuel seq conclusion).
Proof.
  unfold fallback. quiet_auto.
  apply (quiet_Prover_prove is_valid clock fuel false (mk_Prover a a0 None)).
Qed.

Lemma process_proof_exn fuel pid n st e st' :
  process_proof fuel pid n st = (Raise e, st') ->
  st' = st /\ (e = AttributeError \/ e = RecursionError \/ e = KeyError).
Proof.
  unfold process_proof. intros H.
  destruct (proofs st !! pid) as [p|]; [|injection H as <- <-; auto].
  destruct (lists st !! Prover.seq p) as [xs|]; [|injection H as <- <-; auto].
  destruct (reify fuel st xs) as [s|]; [|injection H as <- <-; auto].
  destruct (process fuel s (count st)) as [[[c s2] cnt]|e'] eqn:E; [discriminate|].
  injection H as <- <-. split; [reflexivity|].
  destruct (process_exn _ _ _ _ E) as [->| ->]; auto.
Qed.

(** X20. The two messages of [prove]. With a countermodel [prove] raises the
    [ProverError] that shows it, and nothing has happened by then: no proof
    object, no prover, no reading of the clock. Without a countermodel the
    one [ProverError] that [prove] can raise is the one that says that no
    proof was found. *)
Theorem prove_invalid_argument (fuel : nat) (premises : list obj) (conclusion : obj)
    (timeout : Q) (st : state) :
  (forall cm, countermodel premises conclusion = Some cm ->
     prove countermodel key_ltb key_str is_valid clock fuel premises conclusion
       timeout st
     = (Raise (invalid_argument key_ltb key_str cm), st)
     /\ exists rest, invalid_argument key_ltb key_str cm
                     = ProverError ("Invalid argument. Countermodel:" ++ rest))
  /\ (countermodel premises conclusion = None ->
      forall msg st',
        prove countermodel key_ltb key_str is_valid clock fuel premises conclusion
          timeout st
        = (Raise (ProverError msg), st') ->
        msg = "Argument is valid, but no proof was found.").
Proof.
  split.
  - intros cm Hcm. unfold prove. rewrite Hcm. split; [reflexivity|].
    unfold invalid_argument. eexists. reflexivity.
  - intros Hcm msg st' H. unfold prove in H. rewrite Hcm in H.
    apply bind_inv in H as [([[seq pf] proved] & st1 & H1 & H)|(e & H1 & [= <-])].
    2:{ destruct (first_attempt_quiet _ _ _ _ _ _ _ H1) as [Hx _].
        specialize (Hx _ eq_refl). discriminate Hx. }
    apply bind_inv in H as [(pf' & st2 & H2 & H)|(e & H2 & [= <-])].
    + apply bind_inv in H as [(c & st3 & H3 & H)|(e & H3 & [= <-])]; [discriminate|].
      apply process_proof_exn in H3 as [_ [H3|[H3|H3]]]; discriminate H3.
    + destruct proved; [discriminate|].
      apply bind_inv in H2 as [([pf2 b] & st3 & H3 & H2)|(e & H3 & [= <-])].
      * simpl in H2. destruct b; [discriminate|]. injection H2 as <- <-. reflexivity.
      * destruct (fallback_quiet _ _ _ _ _ _ H3) as [_ Hx].
        specialize (Hx _ eq_refl). discriminate Hx.
Qed.


(** X22. The clock in [prove]. [prove] never raises [TimeoutError]. The first
    search, when it returns, has read the clock once to set its deadline
    and once in every entry of [Prover.prove]; the fallback search never
    reads the clock. *)
Theorem prove_timeout_discipline (fuel : nat) (premises : list obj)
    (conclusion : obj) (timeout : Q) (st st' : state) :
  (forall r, prove countermodel key_ltb key_str is_valid clock fuel premises
               conclusion timeout st = (r, st') -> r <> Raise TimeoutError)
  /\ (forall v, first_attempt is_valid clock fuel premises conclusion timeout st
                = (Ok v, st') ->
        reads st' - reads st = 1 + (entries st' - entries st))
  /\ (forall seq r, fallback is_valid clock fuel seq conclusion st = (r, st') ->
        reads st' = reads st /\ r <> Raise TimeoutError).
Proof.
  split; [|split].
  - intros r H ->. unfold prove in H.
    destruct (countermodel premises conclusion); [discriminate|].
    apply bind_inv in H as [([[seq pf] proved] & st1 & H1 & H)|(e & H1 & [= <-])].
    2:{ destruct (first_attempt_quiet _ _ _ _ _ _ _ H1) as [Hx _].
        specialize (Hx _ eq_refl). discriminate Hx. }
    apply bind_inv in H as [(pf' & st2 & H2 & H)|(e & H2 & [= <-])].
    + apply bind_inv in H as [(c & st3 & H3 & H)|(e & H3 & [= <-])]; [discriminate|].
      apply process_proof_exn in H3 as [_ [H3|[H3|H3]]]; discriminate H3.
    + destruct proved; [discriminate|].
      apply bind_inv in H2 as [([pf2 b] & st3 & H3 & H2)|(e & H3 & [= <-])].
      * simpl in H2. destruct b; discriminate.
      * destruct (fallback_quiet _ _ _ _ _ _ H3) as [_ Hx].
        specialize (Hx _ eq_refl). discriminate Hx.
  - intros v H. destruct (first_attempt_quiet _ _ _ _ _ _ _ H) as (_ & Hr & He).
    specialize (Hr v eq_refl). lia.
  - intros seq r H. destruct (fallback_quiet _ _ _ _ _ _ H) as [(Hr & _) Hx].
    split; [exact Hr|]. intros ->. specialize (Hx _ eq_refl). discriminate Hx.
Qed.
End ProveErrors.

Section SearchWitnesses.
Import Syntax Prover Processor Generate.

Lemma Prover_prove_exceptions_witness :
  (TimeoutError = TimeoutError /\ deadline (mk_Prover 3 1 (Some 0%Q)) <> None)
  \/ TimeoutError = AttributeError \/ TimeoutError = IndexError
  \/ TimeoutError = RecursionError.
Proof.
  exact (Prover_prove_exceptions TflSat.is_valid still_clock 1 true
           (mk_Prover 3 1 (Some 0%Q)) (mp_state B) _ TimeoutError eq_refl).
Defined.

Lemma Prover_prove_clock_witness :
  exists r st',
    Prover_prove TflSat.is_valid still_clock 5 true (mk_Prover 3 1 None) (mp_state B)
    = (r, st')
    /\ reads st' = reads (mp_state B).
Proof.
  destruct (Prover_prove TflSat.is_valid still_clock 5 true (mk_Prover 3 1 None)
              (mp_state B)) as [r st'] eqn:E.
  exists r, st'. split; [reflexivity|].
  exact (proj2 (Prover_prove_clock TflSat.is_valid still_clock 5 true
                  (mk_Prover 3 1 None) (mp_state B) st' r E)).
Defined.


End SearchWitnesses.
